(** * Heuristic language detection of the Translator front-end

    A shallow embedding of [TranslationService] (services/translationService.ts):
    [isLikelyEnglish], [isTransliteratedHindi], [heuristicLanguageDetection],
    [detectLanguage], [translate] and [fallbackTranslation], of the hooks and
    the application component that call it, and of the fragment of ECMAScript
    strings and regular expressions those functions run on.

    A JavaScript string is a sequence of 16-bit code units; the regular
    expressions of the service carry no [u] flag, so they too work on code
    units.  Code units are integers of [Z]. *)

From Stdlib Require Import ZArith List Bool String Ascii Lia.
From Stdlib Require PrimFloat.
Import ListNotations.
Local Open Scope Z_scope.

Set Implicit Arguments.

(* ================================================================== *)
(** ** Strings of UTF-16 code units *)

Module JS.

Definition codeunit := Z.
Definition jsstring := list codeunit.

(** The source file is UTF-8.  [decode] reads the bytes of a literal and
    yields its UTF-16 code units, so the literals below are written as they
    stand in the source. *)
Fixpoint decode (bs : list Z) : jsstring :=
  match bs with
  | [] => []
  | b0 :: r0 =>
    if b0 <? 0x80 then b0 :: decode r0
    else if b0 <? 0xE0 then
      match r0 with
      | b1 :: r1 => Z.lor (Z.shiftl (Z.land b0 0x1F) 6) (Z.land b1 0x3F) :: decode r1
      | _ => []
      end
    else if b0 <? 0xF0 then
      match r0 with
      | b1 :: b2 :: r2 =>
        Z.lor (Z.shiftl (Z.land b0 0x0F) 12)
              (Z.lor (Z.shiftl (Z.land b1 0x3F) 6) (Z.land b2 0x3F)) :: decode r2
      | _ => []
      end
    else
      match r0 with
      | b1 :: b2 :: b3 :: r3 =>
        let cp := Z.lor (Z.shiftl (Z.land b0 0x07) 18)
                  (Z.lor (Z.shiftl (Z.land b1 0x3F) 12)
                  (Z.lor (Z.shiftl (Z.land b2 0x3F) 6) (Z.land b3 0x3F))) in
        let v := cp - 0x10000 in
        (0xD800 + Z.shiftr v 10) :: (0xDC00 + Z.land v 0x3FF) :: decode r3
      | _ => []
      end
  end.

Fixpoint bytes (s : string) : list Z :=
  match s with
  | EmptyString => []
  | String a r => Z.of_nat (nat_of_ascii a) :: bytes r
  end.

Definition lit (s : string) : jsstring := decode (bytes s).

(** The first code unit of a one-character literal. *)
Definition chr (s : string) : codeunit := hd 0 (lit s).

(** [String.prototype.includes]. *)
Fixpoint startsWith (w s : jsstring) : bool :=
  match w, s with
  | [], _ => true
  | _ :: _, [] => false
  | a :: w', b :: s' => (a =? b) && startsWith w' s'
  end.

Fixpoint includes (s w : jsstring) : bool :=
  startsWith w s ||
  match s with
  | [] => false
  | _ :: s' => includes s' w
  end.

(** WhiteSpace and LineTerminator of ECMAScript: what [\s] matches and what
    [String.prototype.trim] removes. *)
Definition isWhiteSpace (c : codeunit) : bool :=
  (c =? 0x09) || (c =? 0x0A) || (c =? 0x0B) || (c =? 0x0C) || (c =? 0x0D) ||
  (c =? 0x20) || (c =? 0xA0) || (c =? 0x1680) ||
  ((0x2000 <=? c) && (c <=? 0x200A)) ||
  (c =? 0x2028) || (c =? 0x2029) || (c =? 0x202F) || (c =? 0x205F) ||
  (c =? 0x3000) || (c =? 0xFEFF).

(** [\w] without the [u] flag: ASCII letters, digits and underscore. *)
Definition isWordChar (c : codeunit) : bool :=
  ((0x61 <=? c) && (c <=? 0x7A)) || ((0x41 <=? c) && (c <=? 0x5A)) ||
  ((0x30 <=? c) && (c <=? 0x39)) || (c =? 0x5F).

(** Lone surrogates make [encodeURIComponent] throw a URIError. *)
Definition isHigh (c : codeunit) : bool := (0xD800 <=? c) && (c <=? 0xDBFF).
Definition isLow (c : codeunit) : bool := (0xDC00 <=? c) && (c <=? 0xDFFF).

Fixpoint wellFormed (s : jsstring) : bool :=
  match s with
  | [] => true
  | c :: r =>
    if isHigh c then
      match r with
      | d :: r' => isLow d && wellFormed r'
      | [] => false
      end
    else negb (isLow c) && wellFormed r
  end.

End JS.
Import JS.

(* ================================================================== *)
(** ** Regular expressions *)

Module RegExp.

(** Items of a character class [[...]]: single characters and ranges. *)
Inductive item :=
| One (c : codeunit)
| Range (lo hi : codeunit).

Definition inItem (c : codeunit) (i : item) : bool :=
  match i with
  | One d => c =? d
  | Range lo hi => (lo <=? c) && (c <=? hi)
  end.

Definition inClass (cls : list item) (c : codeunit) : bool :=
  existsb (inItem c) cls.

Definition ones (s : string) : list item := map One (lit s).
Definition range (lo hi : string) : item := Range (chr lo) (chr hi).

(** The constructs the service's patterns are built from. *)
Inductive re :=
| Eps                                   (* empty pattern *)
| Void                                  (* empty alternation *)
| Lit (ignoreCase : bool) (w : jsstring) (* a literal run of characters *)
| Cls (p : codeunit -> bool)            (* one character of a class *)
| Plus (p : codeunit -> bool)           (* class+, e.g. \w+ and \s+ *)
| WordB                                 (* \b *)
| Seq (r1 r2 : re)
| Alt (r1 r2 : re).

(** Canonicalize of a pattern without [u]: upper-casing, which never sends
    a non-ASCII unit to an ASCII one.  On the ASCII letters the patterns
    here use, two units agree iff they are the same letter in either case. *)
Definition upperAscii (c : codeunit) : codeunit :=
  if (0x61 <=? c) && (c <=? 0x7A) then c - 0x20 else c.

Definition sameChar (ignoreCase : bool) (a b : codeunit) : bool :=
  if ignoreCase then upperAscii a =? upperAscii b else a =? b.

Definition isWordOpt (o : option codeunit) : bool :=
  match o with
  | Some c => isWordChar c
  | None => false
  end.

(** Consume the literal [w] at the head of [s]; [prev] is the unit before
    the current position. *)
Fixpoint eat (ic : bool) (w : jsstring) (prev : option codeunit) (s : jsstring)
  : option (option codeunit * jsstring) :=
  match w with
  | [] => Some (prev, s)
  | a :: w' =>
    match s with
    | b :: s' => if sameChar ic a b then eat ic w' (Some b) s' else None
    | [] => None
    end
  end.

(** Backtracking matcher in continuation style: [matchAt r prev s k] holds
    when [r] matches a prefix of [s] such that the continuation [k] accepts
    what is left.  A backtracking matcher finds a match exactly when one
    exists, so the boolean result is that of the engine. *)
Fixpoint matchAt (r : re) (prev : option codeunit) (s : jsstring)
         (k : option codeunit -> jsstring -> bool) : bool :=
  match r with
  | Eps => k prev s
  | Void => false
  | Lit ic w =>
    match eat ic w prev s with
    | Some (prev', s') => k prev' s'
    | None => false
    end
  | Cls p =>
    match s with
    | c :: s' => p c && k (Some c) s'
    | [] => false
    end
  | Plus p =>
    (fix more (s : jsstring) : bool :=
       match s with
       | c :: s' => p c && (more s' || k (Some c) s')
       | [] => false
       end) s
  | WordB =>
    xorb (isWordOpt prev) (isWordOpt (head s)) && k prev s
  | Seq r1 r2 => matchAt r1 prev s (fun prev' s' => matchAt r2 prev' s' k)
  | Alt r1 r2 => matchAt r1 prev s k || matchAt r2 prev s k
  end.

(** Try every start position from the left. *)
Fixpoint search (r : re) (prev : option codeunit) (s : jsstring) : bool :=
  matchAt r prev s (fun _ _ => true) ||
  match s with
  | [] => false
  | c :: s' => search r (Some c) s'
  end.

(** [RegExp.prototype.test] on a fresh pattern (lastIndex 0), and the
    truthiness of [String.prototype.match]. *)
Definition test (r : re) (s : jsstring) : bool := search r None s.

Definition seqs (rs : list re) : re := fold_right Seq Eps rs.
Definition alts (rs : list re) : re := fold_right Alt Void rs.

(** [(w1|w2|...)] *)
Definition oneOf (ic : bool) (ws : list string) : re :=
  alts (map (fun w => Lit ic (lit w)) ws).

(** The plain literal [w]. *)
Definition str (w : string) : re := Lit false (lit w).

(** The unit before the position reached after reading [m]. *)
Definition lastOr (prev : option codeunit) (m : jsstring) : option codeunit :=
  fold_left (fun _ c => Some c) m prev.

(** What it means for a pattern to match: [Matches r prev m rest] says that
    [r] matches the run [m], which is preceded by the unit [prev] and
    followed by [rest]. *)
Inductive Matches : re -> option codeunit -> jsstring -> jsstring -> Prop :=
| MEps prev rest : Matches Eps prev [] rest
| MLit ic w prev m rest :
    Forall2 (fun a b => sameChar ic a b = true) w m ->
    Matches (Lit ic w) prev m rest
| MCls (p : codeunit -> bool) prev c rest :
    p c = true -> Matches (Cls p) prev [c] rest
| MPlus (p : codeunit -> bool) prev c m rest :
    Forall (fun c => p c = true) (c :: m) ->
    Matches (Plus p) prev (c :: m) rest
| MWordB prev rest :
    xorb (isWordOpt prev) (isWordOpt (head rest)) = true ->
    Matches WordB prev [] rest
| MSeq r1 r2 prev m1 m2 rest :
    Matches r1 prev m1 (m2 ++ rest) ->
    Matches r2 (lastOr prev m1) m2 rest ->
    Matches (Seq r1 r2) prev (m1 ++ m2) rest
| MAltL r1 r2 prev m rest :
    Matches r1 prev m rest -> Matches (Alt r1 r2) prev m rest
| MAltR r1 r2 prev m rest :
    Matches r2 prev m rest -> Matches (Alt r1 r2) prev m rest.

End RegExp.
Import RegExp.

(* ================================================================== *)
(** ** The language catalog *)

Local Open Scope string_scope.

(** [interface Language { code: string; name: string }] *)
Record Language := mkLanguage { code : string; name : string }.

(** The list declared in App.tsx ([const languages: Language[]]), which the
    application component selects from.  The service reads its catalog from
    the module [../data/languages], which is not among the sources: the
    functions of the service take the catalog as a parameter, and this list
    is one of the catalogs the worked inputs run them on. *)
Definition languages : list Language :=
  [ mkLanguage "auto" "Auto-detect";
    mkLanguage "en" "English";
    mkLanguage "hi" "Hindi";
    mkLanguage "es" "Spanish";
    mkLanguage "fr" "French";
    mkLanguage "de" "German";
    mkLanguage "zh" "Chinese";
    mkLanguage "ja" "Japanese";
    mkLanguage "ru" "Russian" ].

(** [catalog.find(l => l.code === c)]; [None] is JavaScript's [undefined]. *)
Definition findCode (catalog : list Language) (c : string) : option Language :=
  find (fun l => code l =? c) catalog.

(** Modelled from the spec: the codes of the static catalog of the module
    [../data/languages], which the service imports and which is not among
    the sources.  The spec has the catalog expose "at minimum: auto, en, hi,
    es, fr, de, it, pt, ru, ar, ja, ko, zh, plus extension slots for
    additional languages, each with a display name". *)
Definition catalogCodes : list string :=
  ["auto"; "en"; "hi"; "es"; "fr"; "de"; "it"; "pt"; "ru"; "ar"; "ja"; "ko"; "zh"].

(** [catalog] has an entry for each of [codes]. *)
Definition exposes (catalog : list Language) (codes : list string) : bool :=
  forallb (fun c => existsb (fun l => code l =? c) catalog) codes.



(* ================================================================== *)
(** ** Completions and effects of [detectLanguage] *)

Module Effects.

(** What [detectLanguage] does to the outside world. *)
Inductive Event :=
| Fetch (q : jsstring)      (* fetch(`${baseUrl}?q=${encodeURIComponent q}&langpair=auto|en`) *)
| ConsoleError.             (* console.error('Language detection error:', error) *)

Inductive Completion (A : Type) :=
| Normal (a : A)
| Throw.
Arguments Throw {A}.

(** A computation: the events it performed, then how it completed. *)
Definition M (A : Type) : Type := list Event * Completion A.

Definition ret {A} (a : A) : M A := ([], Normal a).
Definition throw {A} : M A := ([], Throw).
Definition emit (e : Event) : M unit := ([e], Normal tt).

Definition bind {A B} (m : M A) (f : A -> M B) : M B :=
  match m with
  | (t, Normal a) => let '(t', c) := f a in ((t ++ t')%list, c)
  | (t, Throw) => (t, Throw)
  end.

(** [try { body } catch (error) { handler }] *)
Definition tryCatch {A} (body : M A) (handler : M A) : M A :=
  match body with
  | (t, Normal a) => (t, Normal a)
  | (t, Throw) => let '(t', c) := handler in ((t ++ t')%list, c)
  end.

Definition events {A} (m : M A) : list Event := fst m.
Definition completion {A} (m : M A) : Completion A := snd m.

Definition isFetch (e : Event) : bool :=
  match e with
  | Fetch _ => true
  | ConsoleError => false
  end.

End Effects.
Import Effects.

Declare Scope js_scope.
Delimit Scope js_scope with js.
Notation "x <- m ; k" := (bind m (fun x => k))
  (at level 61, m at next level, right associativity) : js_scope.
Notation "m ;; k" := (bind m (fun _ => k))
  (at level 61, right associativity) : js_scope.

(** What the remote end answers to the one request [detectLanguage] may
    send. *)
Inductive Payload :=
| JsonNull                               (* [null]: reading a property throws *)
| JsonValue (responseStatus200 : bool)   (* data.responseStatus === 200 *)
            (responseData : bool).       (* truthiness of data.responseData *)

Record Response := mkResponse
  { ok : bool;                 (* response.ok *)
    json : option Payload }.   (* response.json(); [None]: it rejects *)

(** [None]: [fetch] itself rejects. *)
Definition Remote := option Response.

(* ================================================================== *)
(** ** The service *)

Module TranslationService.

Section Service.

(** [String.prototype.toLowerCase], the full Unicode lower-casing of the
    host.  The service is modelled for any such function. *)
Variable toLowerCase : jsstring -> jsstring.

(** The catalog imported by the service. *)
Variable catalog : list Language.

Definition englishWords : re :=
  seqs [ WordB;
         oneOf true
           ["the";"and";"or";"but";"in";"on";"at";"to";"for";"of";"with";"by";
            "from";"up";"about";"into";"over";"after";"is";"are";"was";"were";
            "be";"been";"being";"have";"has";"had";"do";"does";"did";"will";
            "would";"could";"should";"may";"might";"can";"must";"shall";"this";
            "that";"these";"those";"i";"you";"he";"she";"it";"we";"they";"me";
            "him";"her";"us";"them";"my";"your";"his";"her";"its";"our";"their";
            "a";"an";"not";"no";"yes";"hello";"hi";"thank";"thanks";"please";
            "sorry";"excuse";"welcome"];
         WordB ].

(** [matches && matches.length > 0], as a truth value. *)
Definition isLikelyEnglish (text : jsstring) : bool :=
  test englishWords text.

Definition hindiWords : list string :=
  [ "namaste"; "namaskar"; "adaab"; "sat sri akal";
    "aap"; "tum"; "main"; "hum"; "kya"; "kaise"; "kaun"; "kahan"; "kab"; "kyun";
    "hai"; "hain"; "tha"; "thi"; "the"; "hoga"; "hogi"; "honge";
    "accha"; "theek"; "sahi"; "galat"; "bura"; "sundar"; "khushi"; "dukh";
    "paani"; "khana"; "ghar"; "school"; "kaam"; "paise"; "rupaye";
    "mata"; "pita"; "bhai"; "behen"; "beta"; "beti"; "dost"; "sahab";
    "dhanyawad"; "shukriya"; "maaf"; "sorry"; "please"; "kripaya";
    "haan"; "nahi"; "bilkul"; "shayad"; "zaroor"; "kabhi"; "hamesha";
    "ek"; "do"; "teen"; "char"; "paanch"; "chhe"; "saat"; "aath"; "nau"; "das";
    "subah"; "dopahar"; "shaam"; "raat"; "kal"; "aaj"; "parso";
    "kya haal"; "kaise ho"; "kya kar rahe"; "kahan ja rahe"; "kitna paisa";
    "bahut accha"; "bahut bura"; "thoda sa"; "zyada"; "kam"; "poora";
    "jana"; "aana"; "khana"; "peena"; "sona"; "uthna"; "baithna"; "khada";
    "dekhna"; "sunna"; "bolna"; "kehna"; "samjhna"; "padhna"; "likhna";
    "khelna"; "hasna"; "rona"; "gaana"; "naachna"; "daudna"; "chalna" ].

Definition w_plus : re := Plus isWordChar.      (* \w+ *)
Definition s_plus : re := Plus isWhiteSpace.    (* \s+ *)

Definition hindiPatterns : list re :=
  [ seqs [WordB; w_plus; str "ji"; WordB];
    seqs [WordB; w_plus; str "wala"; WordB];
    seqs [WordB; w_plus; str "kar"; WordB];
    seqs [WordB; str "ke"; s_plus; w_plus; WordB];
    seqs [WordB; str "ki"; s_plus; w_plus; WordB];
    seqs [WordB; str "ka"; s_plus; w_plus; WordB];
    seqs [WordB; str "mein"; s_plus; w_plus; WordB];
    seqs [WordB; str "se"; s_plus; w_plus; WordB];
    seqs [WordB; str "ko"; s_plus; w_plus; WordB];
    seqs [WordB; str "rahe"; s_plus; str "hain"; WordB];
    seqs [WordB; str "raha"; s_plus; str "hai"; WordB];
    seqs [WordB; str "ho"; s_plus; str "gaya"; WordB];
    seqs [WordB; str "kar"; s_plus; str "diya"; WordB] ].

Definition devanagariSounds : list string :=
  [ "bh"; "ch"; "dh"; "gh"; "jh"; "kh"; "ph"; "rh"; "sh"; "th"; "zh";
    "aa"; "ee"; "oo"; "ai"; "au"; "ri"; "ru" ].

(** The loop [for (const sound of devanagariSounds) if (...) soundCount++]. *)
Definition countSounds (lowerText : jsstring) : nat :=
  fold_left
    (fun soundCount sound =>
       if includes lowerText (lit sound) then S soundCount else soundCount)
    devanagariSounds 0%nat.

Definition isTransliteratedHindi (text : jsstring) : bool :=
  let lowerText := toLowerCase text in
  if existsb (fun word => includes lowerText (lit word)) hindiWords then true
  else if existsb (fun pattern => test pattern lowerText) hindiPatterns then true
  else
    let soundCount := countSounds lowerText in
    (2 <=? soundCount)%nat.

(** [/[...]/.test(text)] *)
Definition has (cls : list item) (text : jsstring) : bool :=
  test (Cls (inClass cls)) text.

(** [/\b(w1|w2|...)\b/.test(text)] *)
Definition hasWord (ws : list string) (text : jsstring) : bool :=
  test (seqs [WordB; oneOf false ws; WordB]) text.

Definition heuristicLanguageDetection (text : jsstring) : option Language :=
  let lowerText := toLowerCase text in
  if isTransliteratedHindi text then findCode catalog "hi"
  else if has [range "अ" "ह"] text || has [range "०" "९"] text then
    findCode catalog "hi"
  else if has [range "ا" "ي"] text || has [range "٠" "٩"] text then
    findCode catalog "ar"
  else if has [range "а" "я"] lowerText || has [range "А" "Я"] text then
    findCode catalog "ru"
  else if has (ones "ひらがなカタカナ" ++ [range "一" "龯"]) text then
    findCode catalog "ja"
  else if has [range "가" "힣"] text then
    findCode catalog "ko"
  else if has [range "一" "龯"] text then
    findCode catalog "zh"
  else if has (ones "¡¿ñáéíóúü") lowerText ||
          hasWord ["el";"la";"los";"las";"un";"una";"de";"del";"en";"con";"por";
                   "para";"que";"es";"son";"está";"están";"hola";"gracias";
                   "por favor"] lowerText then
    findCode catalog "es"
  else if has (ones "àâäéèêëîïôöùûüÿç") lowerText ||
          hasWord ["le";"la";"les";"un";"une";"de";"du";"des";"et";"ou";"avec";
                   "pour";"que";"est";"sont";"bonjour";"merci";
                   "s'il vous plaît"] lowerText then
    findCode catalog "fr"
  else if has (ones "äöüß") lowerText ||
          hasWord ["der";"die";"das";"ein";"eine";"und";"oder";"mit";"für";
                   "dass";"ist";"sind";"hallo";"danke";"bitte"] lowerText then
    findCode catalog "de"
  else if has (ones "àèéìíîòóù") lowerText ||
          hasWord ["il";"la";"lo";"gli";"le";"un";"una";"di";"del";"della";"e";
                   "o";"con";"per";"che";"è";"sono";"ciao";"grazie";
                   "prego"] lowerText then
    findCode catalog "it"
  else if has (ones "ãõáéíóúâêîôûàç") lowerText ||
          hasWord ["o";"a";"os";"as";"um";"uma";"de";"do";"da";"dos";"das";"e";
                   "ou";"com";"para";"que";"é";"são";"olá";"obrigado";
                   "por favor"] lowerText then
    findCode catalog "pt"
  else findCode catalog "en".

(** The remote end, as seen by one call. *)
Variable remote : Remote.

(** [heuristicResult.code]: a TypeError when the result is [undefined]. *)
Definition codeOf (l : option Language) : M string :=
  match l with
  | Some l => ret (code l)
  | None => throw
  end.

(** [encodeURIComponent(text)] throws a URIError on a lone surrogate; the
    request is recorded by the text it carries. *)
Definition encodeURIComponent (text : jsstring) : M jsstring :=
  if wellFormed text then ret text else throw.

Definition fetch (q : jsstring) : M Response :=
  (emit (Fetch q) ;;
   match remote with
   | Some response => ret response
   | None => throw
   end)%js.

Definition awaitJson (response : Response) : M Payload :=
  match json response with
  | Some data => ret data
  | None => throw
  end.

(** [data.responseStatus === 200 && data.responseData] *)
Definition statusAndData (data : Payload) : M bool :=
  match data with
  | JsonNull => throw
  | JsonValue responseStatus200 responseData =>
    ret (responseStatus200 && responseData)
  end.

Definition detectLanguage (text : jsstring) : M (option Language) :=
  tryCatch
    (let heuristicResult := heuristicLanguageDetection text in
     c <- codeOf heuristicResult ;
     if negb (c =? "en") || isLikelyEnglish text then ret heuristicResult
     else
       q <- encodeURIComponent text ;
       response <- fetch q ;
       if negb (ok response) then ret heuristicResult
       else
         data <- awaitJson response ;
         accepted <- statusAndData data ;
         if accepted then ret heuristicResult
         else ret heuristicResult)%js
    (emit ConsoleError ;; ret (heuristicLanguageDetection text))%js.

End Service.

End TranslationService.
Import TranslationService.

(** A lower-casing for the worked inputs: the simple case mapping on Basic
    Latin, Latin-1 and the basic Cyrillic capitals, every other unit kept.
    On strings over those blocks and over caseless scripts it is
    [String.prototype.toLowerCase]. *)
Definition lowerUnit (c : codeunit) : codeunit :=
  (if (0x41 <=? c) && (c <=? 0x5A) then c + 0x20
   else if (0xC0 <=? c) && (c <=? 0xDE) && negb (c =? 0xD7) then c + 0x20
   else if (0x410 <=? c) && (c <=? 0x42F) then c + 0x20
   else if (0x400 <=? c) && (c <=? 0x40F) then c + 0x50
   else c)%Z.

Definition toLowerCase (text : jsstring) : jsstring := map lowerUnit text.

(* ================================================================== *)
(** ** Catalog entries and worked inputs *)

Definition English := mkLanguage "en" "English".
Definition Hindi := mkLanguage "hi" "Hindi".
Definition Japanese := mkLanguage "ja" "Japanese".
Definition Chinese := mkLanguage "zh" "Chinese".
Definition French := mkLanguage "fr" "French".
Definition Italian := mkLanguage "it" "Italian".
Definition Portuguese := mkLanguage "pt" "Portuguese".
Definition Arabic := mkLanguage "ar" "Arabic".
Definition Korean := mkLanguage "ko" "Korean".

(** A catalog as the spec describes it, for the worked inputs: the entries
    of [languages], and entries for the four codes that list lacks. *)
Definition fullCatalog : list Language :=
  (languages ++ [Italian; Portuguese; Arabic; Korean])%list.

(** The codes [heuristicLanguageDetection] looks up. *)
Definition detectedCodes : list string :=
  ["hi"; "ar"; "ru"; "ja"; "ko"; "zh"; "es"; "fr"; "de"; "it"; "pt"; "en"].

(** The remote call gave nothing to go on: transport error, non-OK
    response, a body that is not JSON, or a payload other than status 200
    with data. *)
Definition inconclusive (remote : Remote) : bool :=
  match remote with
  | None => true
  | Some response =>
    negb (ok response) ||
    match json response with
    | None => true
    | Some JsonNull => true
    | Some (JsonValue responseStatus200 responseData) =>
      negb (responseStatus200 && responseData)
    end
  end.

(** Kana: the Hiragana and Katakana blocks. *)
Definition isKana (c : codeunit) : bool :=
  ((0x3040 <=? c) && (c <=? 0x30FF))%Z.

(** Hangul syllables, [가-힣]. *)
Definition isHangul (c : codeunit) : bool :=
  ((0xAC00 <=? c) && (c <=? 0xD7A3))%Z.

(** The ideographs the service tests for, [一-龯]. *)
Definition isIdeograph (c : codeunit) : bool :=
  ((0x4E00 <=? c) && (c <=? 0x9FAF))%Z.

(** The Devanagari block. *)
Definition isDevanagari (c : codeunit) : bool :=
  ((0x0900 <=? c) && (c <=? 0x097F))%Z.

(** Devanagari letters [अ-ह] and digits [०-९]. *)
Definition isDevanagariLetterOrDigit (c : codeunit) : bool :=
  (((0x0905 <=? c) && (c <=? 0x0939)) || ((0x0966 <=? c) && (c <=? 0x096F)))%Z.

(** The white-space units, listed. *)
Definition whiteUnits : list codeunit :=
  ([0x09; 0x0A; 0x0B; 0x0C; 0x0D; 0x20; 0xA0; 0x1680;
   0x2000; 0x2001; 0x2002; 0x2003; 0x2004; 0x2005; 0x2006; 0x2007; 0x2008;
   0x2009; 0x200A; 0x2028; 0x2029; 0x202F; 0x205F; 0x3000; 0xFEFF])%Z.

(** The word starts with a unit that is not white space. *)
Definition headNotWhite (w : jsstring) : bool :=
  match w with
  | a :: _ => negb (isWhiteSpace a)
  | [] => false
  end.

(** The fragments of [devanagariSounds] that occur in the lowered text. *)
Definition soundsFound (lowerText : jsstring) : list string :=
  filter (fun sound => includes lowerText (lit sound)) devanagariSounds.

(** The tests that come before the Japanese one. *)
Definition earlierTier (lower : jsstring -> jsstring) (text : jsstring) : bool :=
  isTransliteratedHindi lower text ||
  (has [range "अ" "ह"] text || has [range "०" "९"] text) ||
  (has [range "ا" "ي"] text || has [range "٠" "٩"] text) ||
  (has [range "а" "я"] (lower text) || has [range "А" "Я"] text).

(* ================================================================== *)
(** ** More of strings *)

(** [String.prototype.trim], [slice(0, n)] and [===] on strings. *)
Fixpoint trimStart (s : jsstring) : jsstring :=
  match s with
  | [] => []
  | c :: r => if isWhiteSpace c then trimStart r else s
  end.

Definition trim (s : jsstring) : jsstring :=
  rev (trimStart (rev (trimStart s))).

Definition slice0 (n : nat) (s : jsstring) : jsstring := firstn n s.

Fixpoint sameUnits (a b : jsstring) : bool :=
  match a, b with
  | [], [] => true
  | x :: a', y :: b' => (x =? y)%Z && sameUnits a' b'
  | _, _ => false
  end.

(* ================================================================== *)
(** ** JSON values *)

(** What [response.json()] resolves to.  A number is a double; the members
    of an object are in the order of the text, the last of two with the
    same key being the one that counts. *)
#[warnings="-register-all"]
Inductive Value :=
| JNull
| JBoolean (b : bool)
| JNumber (n : PrimFloat.float)
| JString (s : jsstring)
| JArray (items : list Value)
| JObject (members : list (jsstring * Value)).

(** ToBoolean: [null], [false], [0], [-0], [NaN] and [''] are falsy. *)
Definition truthy (v : Value) : bool :=
  match v with
  | JNull => false
  | JBoolean b => b
  | JNumber n => negb (PrimFloat.eqb n PrimFloat.zero || PrimFloat.is_nan n)
  | JString [] => false
  | JString (_ :: _) => true
  | JArray _ => true
  | JObject _ => true
  end.

(** The member with key [key] of an object, [None] being [undefined]. *)
Fixpoint member (key : jsstring) (members : list (jsstring * Value))
  : option Value :=
  match members with
  | [] => None
  | (k, v) :: rest =>
    match member key rest with
    | Some later => Some later
    | None => if sameUnits k key then Some v else None
    end
  end.

(** [v[0]], [None] being [undefined]: the first element of an array, the
    first code unit of a string, the member ['0'] of an object; a number or
    a boolean has none.  Of [null] the read throws: [first] is applied to
    truthy values only. *)
Definition first (v : Value) : option Value :=
  match v with
  | JArray (x :: _) => Some x
  | JString (c :: _) => Some (JString [c])
  | JObject members => member [0x30%Z] members
  | _ => None
  end.

(** [o && o[0]], given the value [o] of the left operand. *)
Definition andFirst (o : option Value) : option Value :=
  match o with
  | Some v => if truthy v then first v else o
  | None => None
  end.

(** ToBoolean of a value that may be [undefined]. *)
Definition truthyOr (o : option Value) : bool :=
  match o with
  | Some v => truthy v
  | None => false
  end.


(* ================================================================== *)
(** ** The history hook (hooks/useTranslationHistory.ts) *)

Module History.

Local Open Scope list_scope.

Section Hook.

(** JavaScript numbers (the time value of a [Date], a confidence score):
    the hook carries them and never looks inside. *)
Variable Number : Type.

(** [interface Translation].  [translatedText] holds what the service
    returned: a string by its declared type, and at run time whatever JSON
    value [fallbackTranslation] took from the reply. *)
Record Translation := mkTranslation
  { id : string;
    originalText : jsstring;
    translatedText : Value;
    sourceLanguage : Language;
    targetLanguage : Language;
    timestamp : Number;
    isFavorite : bool;
    confidence : option Number }.

(** [interface TranslationHistory] *)
Record TranslationHistory := mkHistory
  { translations : list Translation;
    favorites : list Translation }.

(** The state [useState] starts from. *)
Definition initial : TranslationHistory := mkHistory [] [].

(** [{ ...translation, isFavorite: b }] *)
Definition withFavorite (translation : Translation) (b : bool) : Translation :=
  mkTranslation (id translation) (originalText translation)
    (translatedText translation) (sourceLanguage translation)
    (targetLanguage translation) (timestamp translation) b
    (confidence translation).

(** The outcome of one callback: the next state, and the history handed to
    [saveHistory], if any. *)
Record Update := mkUpdate
  { next : TranslationHistory;
    saved : option TranslationHistory }.

Definition addTranslation (translation : Translation)
           (prev : TranslationHistory) : Update :=
  let newHistory :=
    mkHistory (translation :: firstn 99 (translations prev)) (favorites prev) in
  mkUpdate newHistory (Some newHistory).

Definition toggleFavorite (translationId : string)
           (prev : TranslationHistory) : Update :=
  match find (fun t => id t =? translationId) (translations prev) with
  | None => mkUpdate prev None
  | Some translation =>
    let updatedTranslation :=
      withFavorite translation (negb (isFavorite translation)) in
    let newHistory :=
      mkHistory
        (map (fun t => if id t =? translationId then updatedTranslation else t)
             (translations prev))
        (if isFavorite updatedTranslation
         then updatedTranslation :: favorites prev
         else filter (fun t => negb (id t =? translationId)) (favorites prev)) in
    mkUpdate newHistory (Some newHistory)
  end.

Definition deleteTranslation (translationId : string)
           (prev : TranslationHistory) : Update :=
  let newHistory :=
    mkHistory
      (filter (fun t => negb (id t =? translationId)) (translations prev))
      (filter (fun t => negb (id t =? translationId)) (favorites prev)) in
  mkUpdate newHistory (Some newHistory).

Definition clearHistory (prev : TranslationHistory) : Update :=
  let newHistory := mkHistory [] [] in
  mkUpdate newHistory (Some newHistory).

(** What a user of the hook can do. *)
Inductive Action :=
| Add (translation : Translation)
| Toggle (translationId : string)
| Delete (translationId : string)
| Clear.

Definition step (h : TranslationHistory) (a : Action) : TranslationHistory :=
  match a with
  | Add translation => next (addTranslation translation h)
  | Toggle translationId => next (toggleFavorite translationId h)
  | Delete translationId => next (deleteTranslation translationId h)
  | Clear => next (clearHistory h)
  end.

Definition run (h : TranslationHistory) (actions : list Action)
  : TranslationHistory :=
  fold_left step actions h.

(** Some entry of the list carries the id. *)
Definition hasId (translationId : string) (l : list Translation) : bool :=
  existsb (fun t => id t =? translationId) l.

End Hook.

End History.

(** A history entry for the worked inputs: ["hello"] put into French, with
    the given id and flag, numbers being integers. *)
Definition sampleEntry (i : string) (fav : bool) : History.Translation Z :=
  History.mkTranslation i (lit "hello") (JString (lit "bonjour")) English French
    0%Z fav None.

(* ================================================================== *)
(** ** Stateful computations of the components *)

Module UI.

Section Monad.

(** Component state and the events of the outside world. *)
Variables S E : Type.

(** A computation reads and writes the state, performs events and completes
    normally or by throwing. *)
Definition P (A : Type) : Type := S -> list E * S * Completion A.

Definition ret {A} (a : A) : P A := fun st => ([], st, Normal a).
Definition throw {A} : P A := fun st => ([], st, Throw).
Definition emit (e : E) : P unit := fun st => ([e], st, Normal tt).
Definition get : P S := fun st => ([], st, Normal st).
Definition modify (f : S -> S) : P unit := fun st => ([], f st, Normal tt).

Definition bind {A B} (m : P A) (f : A -> P B) : P B :=
  fun st =>
    match m st with
    | (t, st', Normal a) =>
      let '(t', st'', c) := f a st' in ((t ++ t')%list, st'', c)
    | (t, st', Throw) => (t, st', Throw)
    end.

(** [try { body } catch (err) { handler } finally { final }] *)
Definition tryCatchFinally (body handler final : P unit) : P unit :=
  fun st =>
    let '(t, st', c) :=
      match body st with
      | (t, st', Normal a) => (t, st', Normal a)
      | (t, st', Throw) =>
        let '(t', st'', c) := handler st' in ((t ++ t')%list, st'', c)
      end in
    let '(t', st'', c') := final st' in
    ((t ++ t')%list, st'',
     match c' with
     | Normal _ => c
     | Throw => Throw
     end).

Definition events {A} (r : list E * S * Completion A) : list E := fst (fst r).
Definition state {A} (r : list E * S * Completion A) : S := snd (fst r).
Definition outcome {A} (r : list E * S * Completion A) : Completion A := snd r.

End Monad.

Arguments ret {S E A} a.
Arguments throw {S E A}.
Arguments emit {S E} e.
Arguments get {S E}.
Arguments modify {S E} f.
Arguments bind {S E A B} m f.
Arguments tryCatchFinally {S E} body handler final.
Arguments events {S E A} r.
Arguments state {S E A} r.
Arguments outcome {S E A} r.

End UI.

Declare Scope ui_scope.
Delimit Scope ui_scope with ui.
Notation "x <- m ; k" := (UI.bind m (fun x => k))
  (at level 61, m at next level, right associativity) : ui_scope.
Notation "m ;; k" := (UI.bind m (fun _ => k))
  (at level 61, right associativity) : ui_scope.

(* ================================================================== *)
(** ** The application component (App.tsx) *)

Module App.

Local Open Scope list_scope.

Module Result.
(** [interface TranslationResult] *)
Record TranslationResult := mkResult
  { originalText : jsstring;
    translatedText : jsstring;
    sourceLanguage : Language;
    targetLanguage : Language;
    timestamp : jsstring }.
End Result.
Import Result.

(** The [useState] cells of [App]. *)
Record State := mkState
  { sourceLanguage : Language;
    targetLanguage : Language;
    sourceText : jsstring;
    translatedText : jsstring;
    isHistoryOpen : bool;
    isConversationOpen : bool;
    isTranslating : bool;
    error : option string;
    translationHistory : list TranslationResult }.

(** [languages[0]] and [languages[1]]; the catalog has both. *)
Definition initial : State :=
  mkState (nth 0 languages English) (nth 1 languages English)
          [] [] false false false None [].

Definition setSourceLanguage (l : Language) (st : State) : State :=
  mkState l (targetLanguage st) (sourceText st) (translatedText st)
          (isHistoryOpen st) (isConversationOpen st) (isTranslating st)
          (error st) (translationHistory st).

Definition setTargetLanguage (l : Language) (st : State) : State :=
  mkState (sourceLanguage st) l (sourceText st) (translatedText st)
          (isHistoryOpen st) (isConversationOpen st) (isTranslating st)
          (error st) (translationHistory st).

Definition setSourceText (s : jsstring) (st : State) : State :=
  mkState (sourceLanguage st) (targetLanguage st) s (translatedText st)
          (isHistoryOpen st) (isConversationOpen st) (isTranslating st)
          (error st) (translationHistory st).

Definition setTranslatedText (s : jsstring) (st : State) : State :=
  mkState (sourceLanguage st) (targetLanguage st) (sourceText st) s
          (isHistoryOpen st) (isConversationOpen st) (isTranslating st)
          (error st) (translationHistory st).

Definition setIsTranslating (b : bool) (st : State) : State :=
  mkState (sourceLanguage st) (targetLanguage st) (sourceText st)
          (translatedText st) (isHistoryOpen st) (isConversationOpen st) b
          (error st) (translationHistory st).

Definition setError (e : option string) (st : State) : State :=
  mkState (sourceLanguage st) (targetLanguage st) (sourceText st)
          (translatedText st) (isHistoryOpen st) (isConversationOpen st)
          (isTranslating st) e (translationHistory st).

(** [setTranslationHistory(prev => f prev)] *)
Definition setTranslationHistory
           (f : list TranslationResult -> list TranslationResult)
           (st : State) : State :=
  mkState (sourceLanguage st) (targetLanguage st) (sourceText st)
          (translatedText st) (isHistoryOpen st) (isConversationOpen st)
          (isTranslating st) (error st) (f (translationHistory st)).

(** [languages.find(l => l.code === code)] for a code held in a JavaScript
    string. *)
Definition findByCode (avail : list Language) (c : jsstring) : option Language :=
  find (fun lang => sameUnits (lit (code lang)) c) avail.

Definition getLanguageNameByCode (c : jsstring) : jsstring :=
  match findByCode languages c with
  | Some lang => lit (name lang)
  | None => c
  end.

(** The local [LanguageSelector]: the options offered, and what picking
    the option value [v] does to the selected language. *)
Definition availableLanguages (excludeAuto : bool) : list Language :=
  if excludeAuto then filter (fun lang => negb (code lang =? "auto")) languages
  else languages.

Definition onChange (excludeAuto : bool) (v : jsstring)
           (onLanguageChange : Language -> State -> State) (st : State) : State :=
  match findByCode (availableLanguages excludeAuto) v with
  | Some newLang => onLanguageChange newLang st
  | None => st
  end.

Definition handleSwapLanguages (st : State) : State :=
  if negb (code (sourceLanguage st) =? "auto") then
    let tempSourceLang := sourceLanguage st in
    let tempTargetLang := targetLanguage st in
    setError None
      (setTranslatedText (sourceText st)
         (setSourceText (translatedText st)
            (setTargetLanguage tempSourceLang
               (setSourceLanguage tempTargetLang st))))
  else st.

(** What the component does to the outside world. *)
Inductive Call :=
| Gemini (prompt : jsstring)      (* fetch(apiUrl, { method: 'POST', ... }) *)
| ConsoleLog
| ConsoleError.

(** The body of a reply, as far as [callGeminiApi] looks into it; a missing
    or falsy member is [None].  The [text] of a part is a string, as the
    replies of the API have it. *)
Record Part := mkPart { text : jsstring }.
Record Content := mkContent { parts : option (list Part) }.
Record Candidate := mkCandidate { content : option Content }.
Record GeminiResult := mkGeminiResult { candidates : option (list Candidate) }.

(** [Rejected]: [fetch] or [response.json()] rejects. *)
Inductive Reply :=
| Rejected
| Json (result : GeminiResult).

(** The text [callGeminiApi] takes from a reply, if it finds one. *)
Definition replyText (reply : Reply) : option jsstring :=
  match reply with
  | Rejected => None
  | Json result =>
    match candidates result with
    | Some (mkCandidate (Some (mkContent (Some (part :: _)))) :: _) =>
      Some (text part)
    | _ => None
    end
  end.

(** What [callGeminiApi] logs when it finds no text in a reply it got. *)
Definition replyLog (reply : Reply) : list Call :=
  match reply with
  | Rejected => []
  | Json _ => [ConsoleError]
  end.

Definition isGemini (c : Call) : bool :=
  match c with
  | Gemini _ => true
  | _ => false
  end.

Section Component.

Variable toLowerCase : jsstring -> jsstring.

(** [import.meta.env.VITE_GEMINI_API_KEY]; [None] when undefined. *)
Variable apiKey : option jsstring.

Local Abbreviation P := (UI.P State Call).

Definition falsy (k : option jsstring) : bool :=
  match k with
  | None => true
  | Some [] => true
  | Some (_ :: _) => false
  end.

Definition callGeminiApi (reply : Reply) (prompt : jsstring) : P jsstring :=
  (if falsy apiKey then UI.throw
   else
     UI.emit (Gemini prompt) ;;
     match reply with
     | Rejected => UI.throw
     | Json result =>
       match candidates result with
       | Some (mkCandidate (Some (mkContent (Some (part :: _)))) :: _) =>
         UI.ret (text part)
       | _ => UI.emit ConsoleError ;; UI.throw
       end
     end)%ui.

Definition detectPrompt (text : jsstring) : jsstring :=
  lit "Detect the language of the following text and respond with only the ISO 639-1 two-letter language code (e.g., 'en' for English, 'hi' for Hindi, 'fr' for French). If you cannot confidently detect it, respond with 'und' (undetermined)."
  ++ [10; 10]%Z ++ lit "Text: " ++ text.

Definition detectLanguage (reply : Reply) (text : jsstring) : P jsstring :=
  (responseText <- callGeminiApi reply (detectPrompt text) ;
   UI.ret (slice0 2 (toLowerCase (trim responseText))))%ui.

Definition translatePrompt (text sourceCode targetCode : jsstring) : jsstring :=
  let sourceName := getLanguageNameByCode sourceCode in
  let targetName := getLanguageNameByCode targetCode in
  lit "Translate the following text from " ++ sourceName ++ lit " to "
  ++ targetName ++ lit ":" ++ [10; 10]%Z ++ text.

Definition translateTextWithGemini (reply : Reply)
           (text sourceCode targetCode : jsstring) : P jsstring :=
  callGeminiApi reply (translatePrompt text sourceCode targetCode).

Definition couldNotDetect : string :=
  "Could not confidently auto-detect language. Please select it manually.".

Definition errorOccurred : string :=
  "An error occurred during translation. Please try again.".

(** The effect body [performTranslation]: [detectReply] and
    [translateReply] are what the remote end answers to the detection and
    to the translation request, [now] is [new Date().toISOString()].  The
    values read from the closure are those of the state it starts in. *)
Definition performTranslation (detectReply translateReply : Reply)
           (now : jsstring) : P unit :=
  (st <- UI.get ;
   let sourceText := sourceText st in
   let sourceLanguage := sourceLanguage st in
   let targetLanguage := targetLanguage st in
   match trim sourceText with
   | [] =>
     UI.modify (setTranslatedText []) ;;
     UI.modify (setError None)
   | _ :: _ =>
     UI.modify (setIsTranslating true) ;;
     UI.modify (setError None) ;;
     UI.tryCatchFinally
       (actual <-
          (if code sourceLanguage =? "auto" then
             detectedCode <- detectLanguage detectReply sourceText ;
             match findByCode languages detectedCode with
             | Some detectedLang =>
               if negb (sameUnits detectedCode (lit "und")) then
                 UI.emit ConsoleLog ;; UI.ret (Some detectedLang)
               else UI.ret None
             | None => UI.ret None
             end
           else UI.ret (Some sourceLanguage)) ;
        match actual with
        | None =>
          UI.modify (setError (Some couldNotDetect)) ;;
          UI.modify (setIsTranslating false)
        | Some actualSourceLanguage =>
          translatedResult <-
            translateTextWithGemini translateReply sourceText
              (lit (code actualSourceLanguage)) (lit (code targetLanguage)) ;
          UI.modify (setTranslatedText translatedResult) ;;
          let newTranslation :=
            mkResult sourceText translatedResult actualSourceLanguage
                     targetLanguage now in
          UI.modify (setTranslationHistory (fun prev => newTranslation :: prev))
        end)
       (UI.emit ConsoleError ;;
        UI.modify (setError (Some errorOccurred)) ;;
        UI.modify (setTranslatedText []))
       (UI.modify (setIsTranslating false))
   end)%ui.

End Component.

(** What the user and the effect can do to the component. *)
Inductive Action :=
| PickSource (v : jsstring)          (* the "From" selector *)
| PickTarget (v : jsstring)          (* the "To" selector, [excludeAuto] *)
| Swap
| Type_ (s : jsstring)               (* typing into the source box *)
| Perform (detectReply translateReply : Reply) (now : jsstring).

Definition step (toLowerCase : jsstring -> jsstring) (apiKey : option jsstring)
           (st : State) (a : Action) : State :=
  match a with
  | PickSource v => onChange false v setSourceLanguage st
  | PickTarget v => onChange true v setTargetLanguage st
  | Swap => handleSwapLanguages st
  | Type_ s => setSourceText s st
  | Perform detectReply translateReply now =>
    UI.state (performTranslation toLowerCase apiKey detectReply translateReply now st)
  end.

Definition run (toLowerCase : jsstring -> jsstring) (apiKey : option jsstring)
           (st : State) (actions : list Action) : State :=
  fold_left (step toLowerCase apiKey) actions st.

(** Both selected languages are catalog entries and the target is not the
    [auto] pseudo-language. *)
Definition wellSelected (st : State) : Prop :=
  In (sourceLanguage st) languages /\
  In (targetLanguage st) languages /\
  code (targetLanguage st) <> "auto".

End App.

(** Worked inputs for the component: the [auto] entry, a reply carrying one
    text part, and a state with the given selection and source text whose
    shown translation is ["old"]. *)
Definition Auto := mkLanguage "auto" "Auto-detect".

Definition sampleReply (s : string) : App.Reply :=
  App.Json
    (App.mkGeminiResult
       (Some [App.mkCandidate (Some (App.mkContent (Some [App.mkPart (lit s)])))])).

Definition sampleState (source target : Language) (s : string) : App.State :=
  App.mkState source target (lit s) (lit "old") false false false None [].

(* ================================================================== *)
(** ** The translation calls of the service (services/translationService.ts) *)

Module TranslationAPI.

Local Open Scope list_scope.

(** The requests of [translate] and [fallbackTranslation], and the error
    log. *)
Inductive Call :=
| MyMemory (q : jsstring) (sourceLang targetLang : string)
    (* fetch(`${baseUrl}?q=${encodeURIComponent q}&langpair=${sourceLang}|${targetLang}`) *)
| Google (sl tl : string) (q : jsstring)
    (* fetch(`https://translate.googleapis.com/...&sl=${sl}&tl=${tl}&dt=t&q=${encodeURIComponent q}`) *)
| ConsoleError.

(** A completion whose error carries its [message]. *)
Inductive Outcome (A : Type) :=
| Returns (a : A)
| Throws (message : jsstring).
Arguments Throws {A} message.

Definition T (A : Type) : Type := list Call * Outcome A.

Definition ret {A} (a : A) : T A := ([], Returns a).
Definition throw {A} (message : jsstring) : T A := ([], Throws message).
Definition emit (c : Call) : T unit := ([c], Returns tt).

Definition bind {A B} (m : T A) (f : A -> T B) : T B :=
  match m with
  | (t, Returns a) => let '(t', o) := f a in (t ++ t', o)
  | (t, Throws message) => (t, Throws message)
  end.

(** [try { body } catch (error) { handler error.message }] *)
Definition tryCatch {A} (body : T A) (handler : jsstring -> T A) : T A :=
  match body with
  | (t, Returns a) => (t, Returns a)
  | (t, Throws message) => let '(t', o) := handler message in (t ++ t', o)
  end.

Definition events {A} (m : T A) : list Call := fst m.
Definition outcome {A} (m : T A) : Outcome A := snd m.

(** What [response.json()] gives, as far as [translate] looks into it.
    [NotJson]: it rejects.  [Malformed]: reading a member throws a
    TypeError ([null], or no [translatedText] string).  [Data]: whether
    [responseStatus === 200], and [responseData.translatedText] when
    [responseData] is truthy. *)
Inductive Body :=
| NotJson (message : jsstring)
| Malformed (message : jsstring)
| Data (responseStatus200 : bool) (responseData : option jsstring).

(** [FetchFails]: [fetch] rejects. *)
Inductive MyMemoryReply :=
| FetchFails (message : jsstring)
| Response (ok : bool) (status : nat) (body : Body).

(** [GoogleFails]: [fetch] or [response.json()] rejects.  [GoogleJson data]:
    the body parsed, whatever JSON value it is. *)
Inductive GoogleReply :=
| GoogleFails
| GoogleJson (data : Value).

(** [`${n}`] for a non-negative integer. *)
Fixpoint digits (d : Decimal.uint) : jsstring :=
  match d with
  | Decimal.Nil => []
  | Decimal.D0 r => 0x30%Z :: digits r
  | Decimal.D1 r => 0x31%Z :: digits r
  | Decimal.D2 r => 0x32%Z :: digits r
  | Decimal.D3 r => 0x33%Z :: digits r
  | Decimal.D4 r => 0x34%Z :: digits r
  | Decimal.D5 r => 0x35%Z :: digits r
  | Decimal.D6 r => 0x36%Z :: digits r
  | Decimal.D7 r => 0x37%Z :: digits r
  | Decimal.D8 r => 0x38%Z :: digits r
  | Decimal.D9 r => 0x39%Z :: digits r
  end.

Definition decimal (n : nat) : jsstring := digits (Nat.to_uint n).

Definition unavailable : jsstring :=
  lit "Translation service unavailable. Please check your internet connection.".

Definition failed : jsstring := lit "Translation failed. Please try again.".

(** The message the catch block of [translate] throws for a caught
    message. *)
Definition caught (message : jsstring) : jsstring :=
  if includes message (lit "fetch") then unavailable else failed.

(** [v] when it is there and truthy, [otherwise] if not. *)
Definition segmentOr (o : option Value) (otherwise : Value) : Value :=
  match o with
  | Some v => if truthy v then v else otherwise
  | None => otherwise
  end.

Section Calls.

Variable toLowerCase : jsstring -> jsstring.

(** The message of the URIError that [encodeURIComponent] throws. *)
Variable uriMessage : jsstring.

Variable myMemory : MyMemoryReply.
Variable google : GoogleReply.

Definition encodeURIComponent (text : jsstring) : T jsstring :=
  if wellFormed text then ret text else throw uriMessage.

Declare Scope api_scope.
Delimit Scope api_scope with api.
Notation "x <- m ; k" := (bind m (fun x => k))
  (at level 61, m at next level, right associativity) : api_scope.
Notation "m ;; k" := (bind m (fun _ => k))
  (at level 61, right associativity) : api_scope.

(** [`[Translation from ${sourceLanguage.name} to ${targetLanguage.name} unavailable]`] *)
Definition notice (sourceLanguage targetLanguage : Language) : jsstring :=
  lit "[Translation from " ++ lit (name sourceLanguage) ++ lit " to "
  ++ lit (name targetLanguage) ++ lit " unavailable]".

(** The value of [data && data[0] && data[0][0] && data[0][0][0]]. *)
Definition firstSegment (data : Value) : option Value :=
  andFirst (andFirst (andFirst (Some data))).

(** The value returned is [data[0][0][0]] as it stands in the reply, a
    string or not. *)
Definition fallbackTranslation (text : jsstring)
           (sourceLanguage targetLanguage : Language) : T Value :=
  (found <-
     tryCatch
       (q <- encodeURIComponent text ;
        emit (Google (code sourceLanguage) (code targetLanguage) q) ;;
        match google with
        | GoogleFails => throw []
        | GoogleJson data =>
          if truthyOr (firstSegment data) then ret (firstSegment data)
          else ret None
        end)
       (fun _ => emit ConsoleError ;; ret None) ;
   match found with
   | Some translated => ret translated
   | None => ret (JString (notice sourceLanguage targetLanguage))
   end)%api.

Definition translate (text : jsstring)
           (sourceLanguage targetLanguage : Language) : T Value :=
  tryCatch
    (if code sourceLanguage =? code targetLanguage then ret (JString text)
     else
       let sourceLang := code sourceLanguage in
       let targetLang := code targetLanguage in
       q <- encodeURIComponent text ;
       emit (MyMemory q sourceLang targetLang) ;;
       match myMemory with
       | FetchFails message => throw message
       | Response ok status body =>
         if negb ok then throw (lit "Translation API error: " ++ decimal status)
         else
           match body with
           | NotJson message => throw message
           | Malformed message => throw message
           | Data true (Some translatedText) =>
             if sameUnits (trim (toLowerCase translatedText))
                          (trim (toLowerCase text))
             then fallbackTranslation text sourceLanguage targetLanguage
             else ret (JString translatedText)
           | Data _ _ => throw (lit "Translation failed: Invalid response from API")
           end
       end)%api
    (fun message =>
       emit ConsoleError ;;
       if includes message (lit "fetch") then throw unavailable
       else throw failed)%api.

End Calls.

End TranslationAPI.

(* ================================================================== *)
(** ** Vocabulary for the further properties of the service *)

(** The codes of the lookups a text can reach. *)
Definition reachableCodes : list string :=
  ["hi"; "ar"; "ru"; "ja"; "ko"; "es"; "fr"; "de"; "it"; "pt"; "en"].

(** The alternatives of [englishWords]. *)
Definition englishWordList : list string :=
  ["the";"and";"or";"but";"in";"on";"at";"to";"for";"of";"with";"by";
   "from";"up";"about";"into";"over";"after";"is";"are";"was";"were";
   "be";"been";"being";"have";"has";"had";"do";"does";"did";"will";
   "would";"could";"should";"may";"might";"can";"must";"shall";"this";
   "that";"these";"those";"i";"you";"he";"she";"it";"we";"they";"me";
   "him";"her";"us";"them";"my";"your";"his";"her";"its";"our";"their";
   "a";"an";"not";"no";"yes";"hello";"hi";"thank";"thanks";"please";
   "sorry";"excuse";"welcome"].

(** One of the words occurs in the text, in any letter case, with no word
    character right before or right after it. *)
Definition occursAsWord (ws : list string) (text : jsstring) : Prop :=
  exists pre m post w,
    text = (pre ++ m ++ post)%list /\
    In w ws /\
    Forall2 (fun a b => upperAscii a = upperAscii b) (lit w) m /\
    isWordOpt (lastOr None pre) = false /\
    isWordOpt (head post) = false.

(** Lower-case ASCII letters. *)
Definition isLowerLetter (c : codeunit) : bool :=
  ((0x61 <=? c) && (c <=? 0x7A))%Z.

(* ================================================================== *)
(** ** The translation hook (hooks/useTranslation.ts) *)

Module Hook.

Local Open Scope list_scope.

(** The [useState] cells of the hook. *)
Record State := mkState
  { isTranslating : bool;
    error : option jsstring }.

(** What a call of [translate] does to the outside world: the events of
    [detectLanguage] and those of the service's [translate]. *)
Inductive Call :=
| Detection (e : Event)
| Translation (c : TranslationAPI.Call).

Section UseTranslation.

Variable Number : Type.

Variable toLowerCase : jsstring -> jsstring.
Variable catalog : list Language.

(** The remote ends, as seen by one call. *)
Variable remote : Remote.
Variable myMemory : TranslationAPI.MyMemoryReply.
Variable google : TranslationAPI.GoogleReply.

(** The messages of the errors thrown by the host: the URIError of
    [encodeURIComponent], and the TypeError of reading [code] off
    [undefined]. *)
Variable uriMessage : jsstring.
Variable typeErrorMessage : jsstring.

(** [Date.now().toString()], [new Date()] and
    [0.95 + Math.random() * 0.05] at the time of the call. *)
Variable nowId : string.
Variable timestamp : Number.
Variable confidence : Number.

(** The [try] block, up to the text and the language it arrives at. *)
Definition attempt (text : jsstring) (sourceLanguage targetLanguage : Language)
  : list Call * TranslationAPI.Outcome (Language * Value) :=
  let service (actual : Language) :=
    let '(ev, o) :=
      TranslationAPI.translate toLowerCase uriMessage myMemory google
        text actual targetLanguage in
    (map Translation ev,
     match o with
     | TranslationAPI.Returns translatedText =>
       TranslationAPI.Returns (actual, translatedText)
     | TranslationAPI.Throws message => TranslationAPI.Throws message
     end) in
  if code sourceLanguage =? "auto" then
    let '(ev, c) := detectLanguage toLowerCase catalog remote text in
    match c with
    | Normal (Some actualSourceLanguage) =>
      if code actualSourceLanguage =? code targetLanguage
      then (map Detection ev,
            TranslationAPI.Returns (actualSourceLanguage, JString text))
      else let '(ev', o) := service actualSourceLanguage in
           (map Detection ev ++ ev', o)
    | Normal None => (map Detection ev, TranslationAPI.Throws typeErrorMessage)
    | Throw => (map Detection ev, TranslationAPI.Throws typeErrorMessage)
    end
  else if code sourceLanguage =? code targetLanguage
       then ([], TranslationAPI.Returns (sourceLanguage, JString text))
       else service sourceLanguage.

(** The hook's [translate]: the events, the cells afterwards, and the
    translation or [null]. *)
Definition translate (text : jsstring) (sourceLanguage targetLanguage : Language)
           (st : State)
  : list Call * State * option (History.Translation Number) :=
  match trim text with
  | [] => ([], st, None)
  | _ :: _ =>
    let '(ev, o) := attempt text sourceLanguage targetLanguage in
    match o with
    | TranslationAPI.Returns (actualSourceLanguage, translatedText) =>
      (ev, mkState false None,
       Some (History.mkTranslation nowId text translatedText
               actualSourceLanguage targetLanguage timestamp false
               (Some confidence)))
    | TranslationAPI.Throws message =>
      (ev, mkState false (Some message), None)
    end
  end.

End UseTranslation.

End Hook.

(* ================================================================== *)
(** ** The language list (components/LanguageSelector.tsx) *)

Module Lists.

Section Filters.

Variable toLowerCase : jsstring -> jsstring.

(** The catalog the selector imports. *)
Variable catalog : list Language.

(** [LanguageSelector]: the entries offered for a search term. *)
Definition filteredLanguages (excludeAuto : bool) (searchTerm : jsstring)
  : list Language :=
  filter
    (fun lang =>
       includes (toLowerCase (lit (name lang))) (toLowerCase searchTerm) ||
       includes (toLowerCase (lit (code lang))) (toLowerCase searchTerm))
    (filter (fun lang => if excludeAuto then negb (code lang =? "auto") else true)
            catalog).

End Filters.

End Lists.

(* ================================================================== *)
(** ** The matcher finds a match exactly when there is one *)

Section Adequacy.

Local Open Scope list_scope.

Lemma lastOr_app (prev : option codeunit) (m1 m2 : jsstring) :
  lastOr prev (m1 ++ m2) = lastOr (lastOr prev m1) m2.
Proof. apply fold_left_app. Qed.

Lemma eat_spec (ic : bool) (w : jsstring) :
  forall prev s prev' s',
    eat ic w prev s = Some (prev', s') <->
    exists m, s = (m ++ s')%list /\
              Forall2 (fun a b => sameChar ic a b = true) w m /\
              prev' = lastOr prev m.
Proof.
  induction w as [|a w IH]; intros prev s prev' s'; cbn.
  - split.
    + intros E. injection E as <- <-. exists []. repeat split. constructor.
    + intros (m & -> & HF & ->). inversion HF. reflexivity.
  - destruct s as [|b s].
    + split; [discriminate|].
      intros (m & E & HF & _). inversion HF; subst. discriminate E.
    + destruct (sameChar ic a b) eqn:Eab.
      * rewrite IH. split.
        -- intros (m & -> & HF & ->). exists (b :: m).
           repeat split. constructor; assumption.
        -- intros (m & E & HF & ->). inversion HF as [|? b' ? m' Hab HF']; subst.
           injection E as <- ->. exists m'. repeat split. exact HF'.
      * split; [discriminate|].
        intros (m & E & HF & _). inversion HF as [|? b' ? m' Hab HF']; subst.
        injection E as <- _. congruence.
Qed.

Lemma matchAt_Plus (p : codeunit -> bool) (k : option codeunit -> jsstring -> bool) :
  forall s prev,
    matchAt (Plus p) prev s k = true <->
    exists c m rest, s = (c :: m ++ rest)%list /\
                     Forall (fun c => p c = true) (c :: m) /\
                     k (lastOr prev (c :: m)) rest = true.
Proof.
  induction s as [|c s IH]; intros prev.
  - cbn. split; [discriminate|]. intros (c & m & rest & E & _). discriminate E.
  - change (matchAt (Plus p) prev (c :: s) k)
      with (p c && (matchAt (Plus p) (Some c) s k || k (Some c) s)).
    rewrite andb_true_iff, orb_true_iff, IH. split.
    + intros [Hc [(d & m & rest & -> & HF & Hk)|Hk]].
      * exists c, (d :: m), rest. repeat split; [constructor; assumption|exact Hk].
      * exists c, [], s. repeat split; [repeat constructor; assumption|exact Hk].
    + intros (c' & m & rest & E & HF & Hk). injection E as <- ->.
      inversion HF as [|? ? Hc HF']; subst. split; [exact Hc|].
      destruct m as [|d m]; [right; exact Hk|left].
      exists d, m, rest. repeat split; assumption.
Qed.

(** Two runs matched by one literal at the head of one text are the same
    run. *)
Lemma same_run {A B} (P : A -> B -> Prop) (w : list A) :
  forall (m m' rest rest' : list B),
    m ++ rest = m' ++ rest' -> Forall2 P w m -> Forall2 P w m' ->
    m' = m /\ rest' = rest.
Proof.
  induction w as [|a w IH]; intros m m' rest rest' E HF HF';
    inversion HF; inversion HF'; subst; cbn in E.
  - split; [reflexivity|]. symmetry. exact E.
  - injection E as -> E. destruct (IH _ _ _ _ E) as [-> ->]; try assumption.
    split; reflexivity.
Qed.

(** The continuation-style matcher against the declarative reading. *)
Theorem matchAt_spec (r : re) :
  forall prev s k,
    matchAt r prev s k = true <->
    exists m rest, s = (m ++ rest)%list /\ Matches r prev m rest /\
                   k (lastOr prev m) rest = true.
Proof.
  induction r as [| |ic w|p|p| |r1 IH1 r2 IH2|r1 IH1 r2 IH2]; intros prev s k.
  - cbn. split.
    + intros Hk. exists [], s. repeat split; [constructor|exact Hk].
    + intros (m & rest & -> & HM & Hk). inversion HM; subst. exact Hk.
  - cbn. split; [discriminate|]. intros (m & rest & _ & HM & _). inversion HM.
  - cbn. destruct (eat ic w prev s) as [[prev' s']|] eqn:E.
    + apply eat_spec in E. destruct E as (m & -> & HF & ->). split.
      * intros Hk. exists m, s'. repeat split; [constructor; exact HF|exact Hk].
      * intros (m' & rest & E & HM & Hk).
        inversion HM as [|? ? ? ? ? HF'| | | | | |]; subst.
        destruct (@same_run _ _ _ _ _ _ _ _ E HF HF') as [-> ->]. exact Hk.
    + split; [discriminate|]. intros (m & rest & -> & HM & Hk).
      inversion HM; subst.
      assert (X : eat ic w prev (m ++ rest) = Some (lastOr prev m, rest)).
      { apply eat_spec. exists m. repeat split. assumption. }
      congruence.
  - cbn. destruct s as [|c s].
    + split; [discriminate|]. intros (m & rest & E & HM & _).
      inversion HM; subst. discriminate E.
    + rewrite andb_true_iff. split.
      * intros [Hc Hk]. exists [c], s. repeat split; [constructor; exact Hc|exact Hk].
      * intros (m & rest & E & HM & Hk). inversion HM; subst.
        injection E as <- <-. split; assumption.
  - rewrite matchAt_Plus. split.
    + intros (c & m & rest & -> & HF & Hk). exists (c :: m), rest.
      repeat split; [constructor; exact HF|exact Hk].
    + intros (m & rest & -> & HM & Hk). inversion HM; subst.
      eexists _, _, rest. repeat split; eassumption.
  - cbn. rewrite andb_true_iff. split.
    + intros [Hb Hk]. exists [], s. repeat split; [constructor; exact Hb|exact Hk].
    + intros (m & rest & -> & HM & Hk). inversion HM; subst. split; assumption.
  - cbn. rewrite IH1. split.
    + intros (m1 & rest1 & -> & HM1 & Hk). apply IH2 in Hk.
      destruct Hk as (m2 & rest & -> & HM2 & Hk).
      exists (m1 ++ m2)%list, rest. rewrite lastOr_app, <- app_assoc.
      repeat split; [constructor; assumption|exact Hk].
    + intros (m & rest & -> & HM & Hk). inversion HM; subst.
      exists m1, (m2 ++ rest)%list. rewrite <- app_assoc.
      repeat split; [assumption|]. apply IH2. exists m2, rest.
      rewrite <- lastOr_app. repeat split; assumption.
  - cbn. rewrite orb_true_iff, IH1, IH2. split.
    + intros [(m & rest & -> & HM & Hk)|(m & rest & -> & HM & Hk)];
        exists m, rest; repeat split; try exact Hk;
        [apply MAltL|apply MAltR]; exact HM.
    + intros (m & rest & -> & HM & Hk). inversion HM; subst;
        [left|right]; exists m, rest; repeat split; assumption.
Qed.

Lemma search_spec (r : re) :
  forall s prev,
    search r prev s = true <->
    exists pre m rest, s = (pre ++ m ++ rest)%list /\
                       Matches r (lastOr prev pre) m rest.
Proof.
  induction s as [|c s IH]; intros prev;
    cbn [search]; rewrite orb_true_iff, matchAt_spec.
  - split.
    + intros [(m & rest & E & HM & _)|E]; [|discriminate].
      exists [], m, rest. split; assumption.
    + intros (pre & m & rest & E & HM). left.
      destruct pre; [|discriminate]. exists m, rest. repeat split; assumption.
  - rewrite IH. split.
    + intros [(m & rest & E & HM & _)|(pre & m & rest & -> & HM)].
      * exists [], m, rest. split; assumption.
      * exists (c :: pre), m, rest. split; [reflexivity|exact HM].
    + intros (pre & m & rest & E & HM). destruct pre as [|c' pre].
      * left. exists m, rest. repeat split; assumption.
      * right. injection E as <- ->. exists pre, m, rest.
        split; [reflexivity|exact HM].
Qed.

(** [test]: some run of the text, in its context, matches the pattern. *)
Theorem test_spec (r : re) (s : jsstring) :
  test r s = true <->
  exists pre m rest, s = (pre ++ m ++ rest)%list /\
                     Matches r (lastOr None pre) m rest.
Proof. apply search_spec. Qed.

(** [includes]: the word is a run of the text. *)
Lemma startsWith_spec (w : jsstring) :
  forall s, startsWith w s = true <-> exists rest, s = (w ++ rest)%list.
Proof.
  induction w as [|a w IH]; intros s; cbn.
  - split; eauto.
  - destruct s as [|b s].
    + split; [discriminate|]. intros (rest & E). discriminate E.
    + rewrite andb_true_iff, IH, Z.eqb_eq. split.
      * intros (-> & rest & ->). eauto.
      * intros (rest & E). injection E as -> ->. eauto.
Qed.

Theorem includes_spec (w : jsstring) :
  forall s, includes s w = true <-> exists pre rest, s = (pre ++ w ++ rest)%list.
Proof.
  induction s as [|c s IH]; cbn [includes]; rewrite orb_true_iff, startsWith_spec.
  - split.
    + intros [(rest & E)|E]; [|discriminate]. exists [], rest. exact E.
    + intros (pre & rest & E). left. destruct pre; [|discriminate]. eauto.
  - rewrite IH. split.
    + intros [(rest & E)|(pre & rest & ->)].
      * exists [], rest. exact E.
      * exists (c :: pre), rest. reflexivity.
    + intros (pre & rest & E). destruct pre as [|c' pre].
      * left. eauto.
      * right. injection E as <- ->. eauto.
Qed.

End Adequacy.

(* ================================================================== *)
(** ** Facts about strings and patterns *)

Section StringFacts.

Local Open Scope Z_scope.

Lemma existsb_none {A} (f : A -> bool) (l : list A) :
  (forall x, In x l -> f x = false) -> existsb f l = false.
Proof.
  induction l as [|a l IH]; cbn; intros H; [reflexivity|].
  rewrite (H a) by tauto. apply IH. intros x Hx. apply H. tauto.
Qed.

Lemma existsb_none_inv {A} (f : A -> bool) (l : list A) :
  existsb f l = false -> forall x, In x l -> f x = false.
Proof.
  intros H x Hx. destruct (f x) eqn:E; [|reflexivity].
  rewrite <- H. symmetry. apply existsb_exists. eauto.
Qed.

(** A class test is an [existsb] over the units of the text. *)
Lemma search_Cls (p : codeunit -> bool) (s : jsstring) :
  forall prev, search (Cls p) prev s = existsb p s.
Proof.
  induction s as [|c s IH]; intros prev; cbn; [reflexivity|].
  rewrite IH, andb_true_r. reflexivity.
Qed.

Lemma test_Cls (p : codeunit -> bool) (s : jsstring) :
  test (Cls p) s = existsb p s.
Proof. apply search_Cls. Qed.

(** A pattern that opens with [\b] finds nothing in a text without word
    characters: no position is a word boundary. *)
Lemma search_boundary_nonword (r : re) (s : jsstring) :
  Forall (fun c => isWordChar c = false) s ->
  forall prev, isWordOpt prev = false -> search (Seq WordB r) prev s = false.
Proof.
  induction 1 as [|c s Hc Hs IH]; intros prev Hp; cbn; rewrite Hp; cbn.
  - reflexivity.
  - rewrite Hc. cbn. apply IH. exact Hc.
Qed.

(** A word whose first unit does not occur in the text is not included. *)
Lemma includes_head_absent (a : codeunit) (w s : jsstring) :
  Forall (fun c => c <> a) s -> includes s (a :: w) = false.
Proof.
  induction 1 as [|c s Hc Hs IH]; cbn; [reflexivity|].
  rewrite IH. destruct (a =? c) eqn:E; [|reflexivity].
  apply Z.eqb_eq in E. congruence.
Qed.

Lemma isWhiteSpace_listed (c : codeunit) :
  isWhiteSpace c = true -> In c whiteUnits.
Proof.
  unfold isWhiteSpace. intros H.
  repeat (apply orb_true_iff in H; destruct H as [H|H]);
    try (apply Z.eqb_eq in H; subst c; cbn; tauto).
  apply andb_true_iff in H. destruct H as [H1 H2].
  apply Z.leb_le in H1. apply Z.leb_le in H2.
  assert (C : c = 0x2000 \/ c = 0x2001 \/ c = 0x2002 \/ c = 0x2003 \/
              c = 0x2004 \/ c = 0x2005 \/ c = 0x2006 \/ c = 0x2007 \/
              c = 0x2008 \/ c = 0x2009 \/ c = 0x200A) by lia.
  repeat (destruct C as [C|C]; [subst c; cbn; tauto|]). subst c; cbn; tauto.
Qed.

(** A property checked on the listed units holds of every unit of a
    white-space text. *)
Lemma white_all (p : codeunit -> bool) (s : jsstring) :
  forallb p whiteUnits = true ->
  Forall (fun c => isWhiteSpace c = true) s ->
  Forall (fun c => p c = true) s.
Proof.
  intros Hp Hs. rewrite forallb_forall in Hp.
  eapply Forall_impl; [|exact Hs]. cbn. intros c Hc.
  apply Hp, isWhiteSpace_listed, Hc.
Qed.

Lemma white_nonword (s : jsstring) :
  Forall (fun c => isWhiteSpace c = true) s ->
  Forall (fun c => isWordChar c = false) s.
Proof.
  intros Hs.
  eapply Forall_impl; [|apply (white_all (fun c => negb (isWordChar c)))]; cbn.
  - intros c Hc. apply negb_true_iff, Hc.
  - vm_compute. reflexivity.
  - exact Hs.
Qed.

Lemma includes_white (s w : jsstring) :
  Forall (fun c => isWhiteSpace c = true) s ->
  headNotWhite w = true ->
  includes s w = false.
Proof.
  intros Hs Hw. destruct w as [|a w]; cbn in Hw; [discriminate|].
  apply includes_head_absent.
  eapply Forall_impl; [|exact Hs]. cbn. intros c Hc E. subst c.
  rewrite Hc in Hw. discriminate.
Qed.

Lemma test_boundary_white (r : re) (s : jsstring) :
  Forall (fun c => isWhiteSpace c = true) s ->
  test (Seq WordB r) s = false.
Proof.
  intros Hs. apply search_boundary_nonword; [apply white_nonword, Hs|reflexivity].
Qed.

Lemma has_white (cls : list item) (s : jsstring) :
  forallb (fun c => negb (inClass cls c)) whiteUnits = true ->
  Forall (fun c => isWhiteSpace c = true) s ->
  has cls s = false.
Proof.
  intros Hc Hs. unfold has. rewrite test_Cls. apply existsb_none.
  intros c Hin. apply negb_true_iff.
  pose proof (white_all _ Hc Hs) as Ha. rewrite Forall_forall in Ha.
  apply Ha, Hin.
Qed.

Lemma hasWord_white (ws : list string) (s : jsstring) :
  Forall (fun c => isWhiteSpace c = true) s ->
  hasWord ws s = false.
Proof. intros Hs. apply test_boundary_white, Hs. Qed.

(** The counting loop counts the fragments that occur. *)
Lemma count_loop {A} (f : A -> bool) (l : list A) :
  forall n, fold_left (fun k x => if f x then S k else k) l n
            = (n + List.length (filter f l))%nat.
Proof.
  induction l as [|a l IH]; intros n; cbn; [lia|].
  rewrite IH. destruct (f a); cbn; lia.
Qed.

Lemma countSounds_found (lowerText : jsstring) :
  countSounds lowerText = List.length (soundsFound lowerText).
Proof. unfold countSounds. rewrite count_loop. reflexivity. Qed.

Lemma devanagariSounds_NoDup : NoDup devanagariSounds.
Proof.
  unfold devanagariSounds.
  repeat (constructor; [cbn; intros H; repeat (destruct H as [H|H]; [discriminate H|]); exact H|]).
  constructor.
Qed.

Lemma soundsFound_NoDup (lowerText : jsstring) : NoDup (soundsFound lowerText).
Proof. apply NoDup_filter, devanagariSounds_NoDup. Qed.

(** Two distinct members, or at least two elements: the same for a list
    without duplicates. *)
Lemma two_distinct {A} (l : list A) :
  NoDup l ->
  (2 <= List.length l)%nat <-> exists a b, a <> b /\ In a l /\ In b l.
Proof.
  intros Hnd. split.
  - destruct l as [|a [|b l]]; cbn; try lia. intros _.
    exists a, b. inversion Hnd as [|? ? Hna _]; subst.
    split; [|tauto]. intros E. subst b. apply Hna. cbn. tauto.
  - intros (a & b & Hab & Ha & Hb).
    destruct l as [|x [|y l]]; cbn in *; try lia; try tauto.
    destruct Ha as [Ha|[]], Hb as [Hb|[]]. congruence.
Qed.

(** The lower-casing of the worked inputs leaves white space alone. *)
Lemma toLowerCase_white (text : jsstring) :
  Forall (fun c => isWhiteSpace c = true) text -> toLowerCase text = text.
Proof.
  intros Hws.
  pose proof (@white_all (fun c => lowerUnit c =? c) text) as Ha. cbn in Ha.
  specialize (Ha ltac:(vm_compute; reflexivity) Hws).
  unfold toLowerCase. induction Ha as [|c t Hc Ht IH]; cbn; [reflexivity|].
  apply Z.eqb_eq in Hc. rewrite Hc, IH; [reflexivity|].
  inversion Hws; assumption.
Qed.

End StringFacts.

(* ================================================================== *)
(** ** Lookups in a catalog *)

Section Catalog.

Variable catalog : list Language.

Lemma exposes_findCode (codes : list string) (c : string) :
  exposes catalog codes = true -> In c codes ->
  exists l, findCode catalog c = Some l /\ In l catalog /\ code l = c.
Proof.
  unfold exposes, findCode. intros H Hc.
  rewrite forallb_forall in H. specialize (H c Hc).
  apply existsb_exists in H. destruct H as (l0 & Hl0 & Hl0c).
  destruct (find (fun l => code l =? c) catalog) as [l|] eqn:F.
  - apply find_some in F. destruct F as [Hl Hlc].
    exists l. repeat split; [exact Hl|]. apply String.eqb_eq. exact Hlc.
  - apply (find_none _ _ F) in Hl0. cbn in Hl0. congruence.
Qed.

Lemma findCode_in (c : string) (l : Language) :
  findCode catalog c = Some l -> In l catalog /\ code l = c.
Proof.
  unfold findCode. intros F. apply find_some in F. destruct F as [Hl Hc].
  split; [exact Hl|]. apply String.eqb_eq. exact Hc.
Qed.

End Catalog.

(* ================================================================== *)
(** ** The wrapper [detectLanguage] *)

Section DetectLanguage.

Variable lower : jsstring -> jsstring.
Variable catalog : list Language.

Local Abbreviation heuristic := (heuristicLanguageDetection lower catalog).
Local Abbreviation detect := (detectLanguage lower catalog).

(** Every path through [detectLanguage], the handler included, completes
    normally with the heuristic result. *)
Lemma detectLanguage_completion (remote : Remote) (text : jsstring) :
  completion (detect remote text) = Normal (heuristic text).
Proof.
  unfold detectLanguage, encodeURIComponent, fetch.
  destruct (heuristic text) as [l|]; cbn; [|reflexivity].
  destruct (negb (code l =? "en") || isLikelyEnglish text); cbn; [reflexivity|].
  destruct (wellFormed text); cbn; [|reflexivity].
  destruct remote as [[[] [[|[] []]|]]|]; reflexivity.
Qed.

(** A trusted heuristic result is returned before any event. *)
Lemma detectLanguage_trusted (remote : Remote) (text : jsstring) (l : Language) :
  heuristic text = Some l ->
  negb (code l =? "en") || isLikelyEnglish text = true ->
  detect remote text = ([], Normal (Some l)).
Proof.
  intros Hh Hc. unfold detectLanguage. rewrite Hh. cbn. rewrite Hc. reflexivity.
Qed.

(** The shape of the trace when the remote end is consulted. *)
Lemma detectLanguage_fallback (remote : Remote) (text : jsstring) (l : Language) :
  heuristic text = Some l ->
  code l = "en" ->
  isLikelyEnglish text = false ->
  wellFormed text = true ->
  exists tail, events (detect remote text) = Fetch text :: tail.
Proof.
  intros Hh Hc He Hw. unfold detectLanguage, encodeURIComponent, fetch.
  rewrite Hh. cbn. rewrite Hc, He, Hw. cbn.
  destruct remote as [[[] [[|[] []]|]]|]; cbn; eexists; reflexivity.
Qed.

(** The heuristic finds an entry as soon as the catalog holds one for each
    code it looks up. *)
Lemma heuristic_defined (text : jsstring) :
  (forall c, In c detectedCodes -> findCode catalog c <> None) ->
  heuristic text <> None.
Proof.
  intros H. unfold heuristicLanguageDetection.
  repeat match goal with
         | |- context [if ?b then _ else _] => destruct b
         end; apply H; cbn; tauto.
Qed.

(** What the heuristic returns is an entry of the catalog. *)
Lemma heuristic_in_catalog (text : jsstring) (l : Language) :
  heuristic text = Some l -> In l catalog.
Proof.
  unfold heuristicLanguageDetection.
  repeat match goal with
         | |- context [if ?b then _ else _] => destruct b
         end; intros F; apply findCode_in in F; apply F.
Qed.

End DetectLanguage.

(* ================================================================== *)
(** ** Script and word tiers *)

Section Tiers.

Variable lower : jsstring -> jsstring.
Variable catalog : list Language.

Local Abbreviation heuristic := (heuristicLanguageDetection lower catalog).

Lemma has_intro (cls : list item) (text : jsstring) (c : codeunit) :
  In c text -> inClass cls c = true -> has cls text = true.
Proof.
  intros Hin Hc. unfold has. rewrite test_Cls. apply existsb_exists. eauto.
Qed.

Lemma filter_none {A} (f : A -> bool) (l : list A) :
  (forall x, In x l -> f x = false) -> filter f l = [].
Proof.
  induction l as [|a l IH]; cbn; intros H; [reflexivity|].
  rewrite (H a) by tauto. apply IH. intros x Hx. apply H. tauto.
Qed.

Lemma hindiWords_heads :
  forallb (fun word => headNotWhite (lit word)) hindiWords = true.
Proof. vm_compute. reflexivity. Qed.

Lemma devanagariSounds_heads :
  forallb (fun sound => headNotWhite (lit sound)) devanagariSounds = true.
Proof. vm_compute. reflexivity. Qed.

(** Every grammatical pattern opens with [\b]. *)
Lemma hindiPatterns_boundary (pattern : re) :
  In pattern hindiPatterns -> exists r, pattern = Seq WordB r.
Proof.
  unfold hindiPatterns. cbn [In]. intros H.
  repeat (destruct H as [H|H]; [subst pattern; eexists; reflexivity|]).
  destruct H.
Qed.

(** The transliteration tier answers first. *)
Lemma heuristic_transliterated (text : jsstring) :
  isTransliteratedHindi lower text = true ->
  heuristic text = findCode catalog "hi".
Proof.
  intros H. unfold heuristicLanguageDetection. rewrite H. reflexivity.
Qed.

(** A Devanagari letter or digit is enough, whatever the first tier says. *)
Lemma heuristic_devanagari (text : jsstring) :
  existsb isDevanagariLetterOrDigit text = true ->
  heuristic text = findCode catalog "hi".
Proof.
  intros H. apply existsb_exists in H. destruct H as (c & Hin & Hc).
  unfold heuristicLanguageDetection.
  destruct (isTransliteratedHindi lower text); [reflexivity|].
  cbv zeta.
  assert (E : has [range "अ" "ह"] text || has [range "०" "९"] text = true).
  { unfold isDevanagariLetterOrDigit in Hc. apply orb_true_iff in Hc.
    apply orb_true_iff. destruct Hc as [Hc|Hc]; [left|right];
      (eapply has_intro; [exact Hin|]); unfold inClass; cbn [existsb];
      rewrite orb_false_r; exact Hc. }
  rewrite E. reflexivity.
Qed.

Lemma japanese_class_ideograph (c : codeunit) :
  isIdeograph c = true ->
  inClass (ones "ひらがなカタカナ" ++ [range "一" "龯"]) c = true.
Proof.
  intros H. unfold inClass. rewrite existsb_app. apply orb_true_iff. right.
  cbn [existsb]. rewrite orb_false_r. exact H.
Qed.

Lemma heuristic_ideograph (text : jsstring) :
  earlierTier lower text = false ->
  existsb isIdeograph text = true ->
  heuristic text = findCode catalog "ja".
Proof.
  intros He Hi. unfold earlierTier in He.
  apply orb_false_iff in He. destruct He as [He Hru].
  apply orb_false_iff in He. destruct He as [He Har].
  apply orb_false_iff in He. destruct He as [Hth Hhi].
  apply existsb_exists in Hi. destruct Hi as (c & Hin & Hc).
  unfold heuristicLanguageDetection. cbv zeta.
  rewrite Hth, Hhi, Har, Hru.
  rewrite (@has_intro _ _ _ Hin (@japanese_class_ideograph _ Hc)).
  reflexivity.
Qed.

(** The Chinese test repeats the range the Japanese test already holds:
    a text with an ideograph never gets as far as the [zh] lookup. *)
Lemma ideograph_never_chinese (text : jsstring) :
  existsb isIdeograph text = true ->
  heuristic text = findCode catalog "hi" \/
  heuristic text = findCode catalog "ar" \/
  heuristic text = findCode catalog "ru" \/
  heuristic text = findCode catalog "ja".
Proof.
  intros Hi. apply existsb_exists in Hi. destruct Hi as (c & Hin & Hc).
  unfold heuristicLanguageDetection. cbv zeta.
  rewrite (@has_intro _ _ _ Hin (@japanese_class_ideograph _ Hc)).
  destruct (isTransliteratedHindi lower text); [tauto|].
  destruct (_ || _); [tauto|].
  destruct (_ || _); [tauto|].
  destruct (_ || _); tauto.
Qed.

(** White-space text: nothing in the first tier fires. *)
Lemma isTransliteratedHindi_white (text : jsstring) :
  Forall (fun c => isWhiteSpace c = true) text ->
  lower text = text ->
  isTransliteratedHindi lower text = false.
Proof.
  intros Hws Hlow. unfold isTransliteratedHindi. cbv zeta. rewrite Hlow.
  rewrite existsb_none.
  2:{ intros word Hin. apply includes_white; [exact Hws|].
      pose proof hindiWords_heads as Hh. rewrite forallb_forall in Hh.
      apply Hh, Hin. }
  rewrite existsb_none.
  2:{ intros pattern Hin. destruct (@hindiPatterns_boundary _ Hin) as [r ->].
      apply test_boundary_white, Hws. }
  rewrite countSounds_found. unfold soundsFound. rewrite filter_none.
  - reflexivity.
  - intros sound Hin. apply includes_white; [exact Hws|].
    pose proof devanagariSounds_heads as Hh. rewrite forallb_forall in Hh.
    apply Hh, Hin.
Qed.

(** ... and nothing in the later tiers either. *)
Lemma heuristic_white (text : jsstring) :
  Forall (fun c => isWhiteSpace c = true) text ->
  lower text = text ->
  heuristic text = findCode catalog "en".
Proof.
  intros Hws Hlow. unfold heuristicLanguageDetection. cbv zeta.
  rewrite (@isTransliteratedHindi_white _ Hws Hlow). rewrite Hlow.
  rewrite !hasWord_white by exact Hws.
  rewrite !has_white by first [exact Hws | vm_compute; reflexivity].
  reflexivity.
Qed.

End Tiers.


(* ================================================================== *)
(** ** Worked inputs *)

Example hindi_romanized :
  heuristicLanguageDetection toLowerCase languages (lit "namaste, aap kaise ho")
    = Some Hindi.
Proof. vm_compute. reflexivity. Qed.

Example french_words :
  heuristicLanguageDetection toLowerCase languages (lit "bonjour, merci beaucoup")
    = Some French.
Proof. vm_compute. reflexivity. Qed.

Example no_evidence :
  heuristicLanguageDetection toLowerCase languages (lit "xyz123") = Some English.
Proof. vm_compute. reflexivity. Qed.

(** Arabic and Korean text on a catalog with entries for both. *)
Example arabic_and_korean :
  heuristicLanguageDetection toLowerCase fullCatalog (lit "مرحبا") = Some Arabic /\
  heuristicLanguageDetection toLowerCase fullCatalog (lit "안녕하세요") = Some Korean.
Proof. split; vm_compute; reflexivity. Qed.

(** Substring matching of the vocabulary: "obrigado" holds "do". *)
Example portuguese_word_is_hindi :
  includes (toLowerCase (lit "obrigado")) (lit "do") = true /\
  heuristicLanguageDetection toLowerCase languages (lit "obrigado") = Some Hindi.
Proof. split; vm_compute; reflexivity. Qed.

(** [\b] after a non-ASCII letter asks for a word character next. *)
Example boundary_after_accent :
  hasWord ["está"] (lit "está bien") = false /\
  hasWord ["está"] (lit "estáx") = true.
Proof. split; vm_compute; reflexivity. Qed.

Example respectful_suffix :
  test (seqs [WordB; w_plus; str "ji"; WordB]) (lit "hello guruji!") = true /\
  test (seqs [WordB; w_plus; str "ji"; WordB]) (lit "ji") = false.
Proof. split; vm_compute; reflexivity. Qed.

(** A lone surrogate: the URIError is caught before any request. *)
Example lone_surrogate :
  detectLanguage toLowerCase languages None [0xD800]%Z
    = ([ConsoleError], Normal (Some English)).
Proof. vm_compute. reflexivity. Qed.

(* ================================================================== *)
(** ** The claims *)

(** C10.  Whatever the remote end does -- request never sent, non-OK
    response, accepted or unexpected payload, rejected body, rejected
    request, URIError -- [detectLanguage] completes normally with the value
    of [heuristicLanguageDetection] on the same text; two calls on the same
    text therefore resolve to the same value. *)
Theorem detectLanguage_resolves_to_heuristic
  (lower : jsstring -> jsstring) (catalog : list Language)
  (remote remote' : Remote) (text : jsstring) :
  completion (detectLanguage lower catalog remote text)
    = Normal (heuristicLanguageDetection lower catalog text) /\
  completion (detectLanguage lower catalog remote text)
    = completion (detectLanguage lower catalog remote' text).
Proof.
  rewrite !detectLanguage_completion. split; reflexivity.
Qed.

(** C6.  When the heuristic result has a code other than ['en'],
    [detectLanguage] returns that result and performs no event at all: in
    particular no request is sent. *)
Theorem detectLanguage_trusts_non_default
  (lower : jsstring -> jsstring) (catalog : list Language)
  (remote : Remote) (text : jsstring) (l : Language) :
  heuristicLanguageDetection lower catalog text = Some l ->
  code l <> "en" ->
  completion (detectLanguage lower catalog remote text) = Normal (Some l) /\
  events (detectLanguage lower catalog remote text) = [] /\
  existsb isFetch (events (detectLanguage lower catalog remote text)) = false.
Proof.
  intros Hh Hc.
  rewrite (@detectLanguage_trusted lower catalog remote text l Hh).
  - repeat split.
  - apply String.eqb_neq in Hc. rewrite Hc. reflexivity.
Qed.

Lemma detectLanguage_trusts_non_default_witness :
  completion (detectLanguage toLowerCase languages None
                (lit "bonjour, merci beaucoup")) = Normal (Some French) /\
  events (detectLanguage toLowerCase languages None
            (lit "bonjour, merci beaucoup")) = [] /\
  existsb isFetch (events (detectLanguage toLowerCase languages None
                             (lit "bonjour, merci beaucoup"))) = false.
Proof.
  apply (@detectLanguage_trusts_non_default toLowerCase languages None
           (lit "bonjour, merci beaucoup") French).
  - vm_compute. reflexivity.
  - cbn. discriminate.
Defined.

(** C3, counterexample.  On ["xyz123"] the heuristic falls through to
    English, the English word check fails and the response is not OK; the
    call still resolves to a Language, English, not to a failure. *)
Lemma detectLanguage_guesses_english :
  heuristicLanguageDetection toLowerCase languages (lit "xyz123") = Some English /\
  isLikelyEnglish (lit "xyz123") = false /\
  inconclusive (Some (mkResponse false None)) = true /\
  detectLanguage toLowerCase languages (Some (mkResponse false None)) (lit "xyz123")
    = ([Fetch (lit "xyz123")], Normal (Some English)).
Proof. repeat split; vm_compute; reflexivity. Qed.

(** C3, as amended.  When the heuristic result is English, the English word
    check fails and the remote call is inconclusive, [detectLanguage]
    returns the heuristic result, English; a well-formed text has been sent
    to the remote end first. *)
Theorem detectLanguage_inconclusive_returns_default
  (lower : jsstring -> jsstring) (catalog : list Language)
  (remote : Remote) (text : jsstring) (l : Language) :
  heuristicLanguageDetection lower catalog text = Some l ->
  code l = "en" ->
  isLikelyEnglish text = false ->
  inconclusive remote = true ->
  completion (detectLanguage lower catalog remote text) = Normal (Some l) /\
  (wellFormed text = true ->
   exists tail,
     events (detectLanguage lower catalog remote text) = Fetch text :: tail).
Proof.
  intros Hh Hc He _. split.
  - rewrite detectLanguage_completion, Hh. reflexivity.
  - intros Hw. exact (@detectLanguage_fallback lower catalog remote text l Hh Hc He Hw).
Qed.

Lemma detectLanguage_inconclusive_returns_default_witness :
  completion (detectLanguage toLowerCase languages None (lit "xyz123"))
    = Normal (Some English) /\
  (wellFormed (lit "xyz123") = true ->
   exists tail,
     events (detectLanguage toLowerCase languages None (lit "xyz123"))
       = Fetch (lit "xyz123") :: tail).
Proof.
  apply (@detectLanguage_inconclusive_returns_default toLowerCase languages None
           (lit "xyz123") English); vm_compute; reflexivity.
Defined.

(** C2.  On a catalog that has an entry for each code the spec lists, every
    lookup of the heuristic finds its entry -- the Arabic, Korean, Italian
    and Portuguese ones included -- and [detectLanguage] completes normally,
    for every text and whatever the remote end does, with an entry of the
    catalog: it never throws and never yields [undefined]. *)
Theorem detectLanguage_returns_language
  (lower : jsstring -> jsstring) (catalog : list Language)
  (remote : Remote) (text : jsstring) :
  exposes catalog catalogCodes = true ->
  (forall c, In c detectedCodes ->
     exists l, findCode catalog c = Some l /\ In l catalog /\ code l = c) /\
  exists l,
    heuristicLanguageDetection lower catalog text = Some l /\
    completion (detectLanguage lower catalog remote text) = Normal (Some l) /\
    In l catalog.
Proof.
  intros H.
  assert (K : forall c, In c detectedCodes ->
                exists l, findCode catalog c = Some l /\ In l catalog /\ code l = c).
  { intros c Hc. apply (@exposes_findCode catalog catalogCodes c H).
    cbn in Hc |- *. intuition. }
  split; [exact K|].
  destruct (heuristicLanguageDetection lower catalog text) as [l|] eqn:Hh.
  - exists l. split; [reflexivity|]. split.
    + rewrite detectLanguage_completion, Hh. reflexivity.
    + apply (@heuristic_in_catalog lower catalog text l Hh).
  - exfalso. apply (@heuristic_defined lower catalog text); [|exact Hh].
    intros c Hc. destruct (K c Hc) as (l & F & _). congruence.
Qed.

(** Arabic text, no answer from the remote end. *)
Lemma detectLanguage_returns_language_witness :
  exposes fullCatalog catalogCodes = true /\
  exists l,
    heuristicLanguageDetection toLowerCase fullCatalog (lit "مرحبا") = Some l /\
    completion (detectLanguage toLowerCase fullCatalog None (lit "مرحبا"))
      = Normal (Some l) /\
    In l fullCatalog.
Proof.
  split; [reflexivity|].
  exact (proj2 (@detectLanguage_returns_language toLowerCase fullCatalog None
                  (lit "مرحبا") eq_refl)).
Defined.



(** C7.  When [isTransliteratedHindi] holds of the text, the heuristic and
    [detectLanguage] return the catalog's Hindi entry, whatever else the
    text contains: the transliteration tier is tested before the script and
    the function-word tiers. *)
Theorem transliteration_preempts
  (lower : jsstring -> jsstring) (catalog : list Language)
  (remote : Remote) (text : jsstring) :
  isTransliteratedHindi lower text = true ->
  heuristicLanguageDetection lower catalog text = findCode catalog "hi" /\
  completion (detectLanguage lower catalog remote text)
    = Normal (findCode catalog "hi").
Proof.
  intros H. rewrite detectLanguage_completion.
  rewrite (@heuristic_transliterated lower catalog text H). split; reflexivity.
Qed.

(** A text with a vocabulary word, Cyrillic and kana letters, a Spanish
    diacritic and a Spanish function word: the answer is Hindi. *)
Lemma transliteration_preempts_witness :
  has [range "а" "я"] (lit "namaste да かな hola señor") = true /\
  has (ones "¡¿ñáéíóúü") (lit "namaste да かな hola señor") = true /\
  heuristicLanguageDetection toLowerCase languages
    (lit "namaste да かな hola señor") = Some Hindi /\
  completion (detectLanguage toLowerCase languages None
                (lit "namaste да かな hola señor")) = Normal (Some Hindi).
Proof.
  split; [vm_compute; reflexivity|]. split; [vm_compute; reflexivity|].
  apply (@transliteration_preempts toLowerCase languages None
           (lit "namaste да かな hola señor")).
  vm_compute. reflexivity.
Defined.

(** C8.  On a text with no vocabulary word and no pattern match, the
    matcher answers true exactly when two distinct fragments of
    [devanagariSounds] occur in the lowered text; the count it compares
    with 2 is the number of fragments that occur, each counted once. *)
Theorem phonetic_density_threshold
  (lower : jsstring -> jsstring) (text : jsstring) :
  (forall word, In word hindiWords -> includes (lower text) (lit word) = false) ->
  (forall pattern, In pattern hindiPatterns -> test pattern (lower text) = false) ->
  (isTransliteratedHindi lower text = true <->
   exists a b, a <> b /\
     (In a devanagariSounds /\ includes (lower text) (lit a) = true) /\
     (In b devanagariSounds /\ includes (lower text) (lit b) = true)) /\
  isTransliteratedHindi lower text
    = (2 <=? List.length (soundsFound (lower text)))%nat /\
  NoDup (soundsFound (lower text)).
Proof.
  intros Hw Hp.
  assert (E : isTransliteratedHindi lower text
              = (2 <=? List.length (soundsFound (lower text)))%nat).
  { unfold isTransliteratedHindi. cbv zeta.
    rewrite (existsb_none _ _ Hw), (existsb_none _ _ Hp), countSounds_found.
    reflexivity. }
  split; [|split; [exact E | apply soundsFound_NoDup]].
  rewrite E, Nat.leb_le, (two_distinct (soundsFound_NoDup (lower text))).
  unfold soundsFound.
  split; intros (a & b & Hab & Ha & Hb); exists a, b; (split; [exact Hab|]).
  - apply filter_In in Ha. apply filter_In in Hb. split; assumption.
  - split; apply filter_In; assumption.
Qed.

(** The boundary: one fragment in ["xbh"], two in ["bhoo"]. *)
Lemma phonetic_density_threshold_witness :
  (soundsFound (toLowerCase (lit "xbh")) = ["bh"] /\
   isTransliteratedHindi toLowerCase (lit "xbh") = false) /\
  (soundsFound (toLowerCase (lit "bhoo")) = ["bh"; "oo"] /\
   isTransliteratedHindi toLowerCase (lit "bhoo") = true).
Proof.
  split; (split; [vm_compute; reflexivity|]).
  - destruct (@phonetic_density_threshold toLowerCase (lit "xbh")) as (_ & E & _).
    + apply (existsb_none_inv
               (fun word => includes (toLowerCase (lit "xbh")) (lit word))).
      vm_compute. reflexivity.
    + apply (existsb_none_inv
               (fun pattern => test pattern (toLowerCase (lit "xbh")))).
      vm_compute. reflexivity.
    + rewrite E. vm_compute. reflexivity.
  - destruct (@phonetic_density_threshold toLowerCase (lit "bhoo")) as (_ & E & _).
    + apply (existsb_none_inv
               (fun word => includes (toLowerCase (lit "bhoo")) (lit word))).
      vm_compute. reflexivity.
    + apply (existsb_none_inv
               (fun pattern => test pattern (toLowerCase (lit "bhoo")))).
      vm_compute. reflexivity.
    + rewrite E. vm_compute. reflexivity.
Defined.

(** C9.  On the empty string and on every white-space-only string -- which
    lower-casing leaves as it is -- [isTransliteratedHindi] answers false
    and the heuristic falls through every tier to the English entry. *)
Theorem whitespace_falls_through
  (lower : jsstring -> jsstring) (catalog : list Language) (text : jsstring) :
  Forall (fun c => isWhiteSpace c = true) text ->
  lower text = text ->
  isTransliteratedHindi lower text = false /\
  heuristicLanguageDetection lower catalog text = findCode catalog "en".
Proof.
  intros Hws Hlow. split.
  - exact (@isTransliteratedHindi_white lower text Hws Hlow).
  - exact (@heuristic_white lower catalog text Hws Hlow).
Qed.

(** The empty string, and a space, a tab and an ideographic space. *)
Lemma whitespace_falls_through_witness :
  (isTransliteratedHindi toLowerCase [] = false /\
   heuristicLanguageDetection toLowerCase languages [] = Some English) /\
  (isTransliteratedHindi toLowerCase [0x20; 0x09; 0x3000]%Z = false /\
   heuristicLanguageDetection toLowerCase languages [0x20; 0x09; 0x3000]%Z
     = Some English).
Proof.
  split.
  - apply (@whitespace_falls_through toLowerCase languages []).
    + constructor.
    + reflexivity.
  - apply (@whitespace_falls_through toLowerCase languages [0x20; 0x09; 0x3000]%Z).
    + repeat constructor.
    + reflexivity.
Defined.

(** C5, counterexample.  ["ॐ"] (U+0950) is a one-character string of the
    Devanagari block; it lies outside [अ-ह] and [०-९], and the result is
    English. *)
Lemma devanagari_om_is_english :
  lit "ॐ" = [0x0950]%Z /\
  forallb isDevanagari (lit "ॐ") = true /\
  heuristicLanguageDetection toLowerCase languages (lit "ॐ") = Some English /\
  completion (detectLanguage toLowerCase languages None (lit "ॐ"))
    = Normal (Some English).
Proof. repeat split; vm_compute; reflexivity. Qed.

(** C5, as amended.  Every string with at least one Devanagari letter of
    [अ-ह] or digit of [०-९] is answered with the catalog's Hindi entry. *)
Theorem devanagari_letter_or_digit_is_hindi
  (lower : jsstring -> jsstring) (catalog : list Language)
  (remote : Remote) (text : jsstring) :
  existsb isDevanagariLetterOrDigit text = true ->
  heuristicLanguageDetection lower catalog text = findCode catalog "hi" /\
  completion (detectLanguage lower catalog remote text)
    = Normal (findCode catalog "hi").
Proof.
  intros H. rewrite detectLanguage_completion.
  rewrite (@heuristic_devanagari lower catalog text H). split; reflexivity.
Qed.

Lemma devanagari_letter_or_digit_is_hindi_witness :
  heuristicLanguageDetection toLowerCase languages (lit "नमस्ते") = Some Hindi /\
  completion (detectLanguage toLowerCase languages None (lit "नमस्ते"))
    = Normal (Some Hindi).
Proof.
  apply (@devanagari_letter_or_digit_is_hindi toLowerCase languages None
           (lit "नमस्ते")).
  vm_compute. reflexivity.
Defined.

(** C1, counterexample.  ["namaste 世界は"] has ideographs and kana and is
    answered Hindi, because the transliteration tier is asked first;
    ["你好世界"] has ideographs, no kana and no Hangul and is answered
    Japanese, not Chinese. *)
Lemma ideograph_texts_not_as_claimed :
  (existsb isIdeograph (lit "namaste 世界は") = true /\
   existsb isKana (lit "namaste 世界は") = true /\
   heuristicLanguageDetection toLowerCase languages (lit "namaste 世界は")
     = Some Hindi) /\
  (existsb isIdeograph (lit "你好世界") = true /\
   existsb isKana (lit "你好世界") = false /\
   existsb isHangul (lit "你好世界") = false /\
   heuristicLanguageDetection toLowerCase languages (lit "你好世界")
     = Some Japanese).
Proof. repeat split; vm_compute; reflexivity. Qed.

(** C1, as amended.  A string with at least one ideograph of [一-龯] and at
    least one kana character, on which none of the earlier tests fires
    (transliteration, Devanagari, Arabic, Cyrillic), is answered with the
    catalog's Japanese entry. *)
Theorem ideograph_and_kana_is_japanese
  (lower : jsstring -> jsstring) (catalog : list Language)
  (remote : Remote) (text : jsstring) :
  earlierTier lower text = false ->
  existsb isIdeograph text = true ->
  existsb isKana text = true ->
  heuristicLanguageDetection lower catalog text = findCode catalog "ja" /\
  completion (detectLanguage lower catalog remote text)
    = Normal (findCode catalog "ja").
Proof.
  intros He Hi _. rewrite detectLanguage_completion.
  rewrite (@heuristic_ideograph lower catalog text He Hi). split; reflexivity.
Qed.

Lemma ideograph_and_kana_is_japanese_witness :
  heuristicLanguageDetection toLowerCase languages (lit "こんにちは世界")
    = Some Japanese /\
  completion (detectLanguage toLowerCase languages None (lit "こんにちは世界"))
    = Normal (Some Japanese).
Proof.
  apply (@ideograph_and_kana_is_japanese toLowerCase languages None
           (lit "こんにちは世界")); vm_compute; reflexivity.
Defined.

(* ================================================================== *)
(** ** The history hook *)

Section HistoryFacts.

Import History.
Local Open Scope list_scope.

Variable Number : Type.

Local Abbreviation Translation := (History.Translation Number).
Local Abbreviation TranslationHistory := (History.TranslationHistory Number).

Lemma filter_all {A} (f : A -> bool) (l : list A) :
  (forall x, In x l -> f x = true) -> filter f l = l.
Proof.
  induction l as [|a l IH]; cbn; intros H; [reflexivity|].
  rewrite (H a) by tauto. f_equal. apply IH. intros x Hx. apply H. tauto.
Qed.

Lemma firstn_incl {A} (n : nat) :
  forall (l : list A) (x : A), In x (firstn n l) -> In x l.
Proof.
  induction n as [|n IH]; intros [|a l] x; cbn; try tauto.
  intros [H|H]; [tauto|]. right. apply IH, H.
Qed.

Lemma hasId_false (translationId : string) (l : list Translation) :
  hasId translationId l = false ->
  forall t, In t l -> (id t =? translationId) = false.
Proof. intros H t Ht. exact (existsb_none_inv _ _ H t Ht). Qed.

Lemma find_none_hasId (translationId : string) (l : list Translation) :
  hasId translationId l = false ->
  find (fun t => id t =? translationId) l = None.
Proof.
  intros H. destruct (find _ l) as [t|] eqn:E; [|reflexivity].
  apply find_some in E. destruct E as [Hin Hid].
  rewrite (hasId_false _ _ H t Hin) in Hid. discriminate.
Qed.

Lemma run_app (h : TranslationHistory) (a b : list (Action Number)) :
  run (run h a) b = run h (a ++ b).
Proof. unfold run. symmetry. apply fold_left_app. Qed.

(** X1.  The recent list never grows beyond 100 entries: [addTranslation]
    keeps the new entry and at most 99 old ones, and no other callback adds
    an entry. *)
Theorem history_bounded (h : TranslationHistory) (actions : list (Action Number)) :
  (List.length (translations h) <= 100)%nat ->
  (List.length (translations (run h actions)) <= 100)%nat.
Proof.
  revert h. induction actions as [|a actions IH]; intros h Hh; [exact Hh|].
  apply IH. destruct a as [t|i|i|];
    cbn [step addTranslation deleteTranslation clearHistory next translations].
  - cbn [List.length]. rewrite length_firstn. lia.
  - unfold toggleFavorite. destruct (find _ _); cbn [next translations]; [|exact Hh].
    rewrite length_map. exact Hh.
  - pose proof (filter_length_le (fun t => negb (id t =? i)) (translations h)). lia.
  - cbn. lia.
Qed.

(** Whatever the history was, [addTranslation] puts the new entry
    first, keeps the 99 most recent old entries in order, leaves the
    favourites alone and hands the new history to [saveHistory]. *)
Lemma addTranslation_shape (t : Translation) (h : TranslationHistory) :
  translations (next (addTranslation t h)) = t :: firstn 99 (translations h) /\
  List.length (translations (next (addTranslation t h)))
    = Nat.min 100 (S (List.length (translations h))) /\
  favorites (next (addTranslation t h)) = favorites h /\
  saved (addTranslation t h) = Some (next (addTranslation t h)).
Proof.
  repeat split. cbn [addTranslation next translations List.length].
  rewrite length_firstn. lia.
Qed.

(** X2.  Every favourite is flagged: if all entries of the favourites list
    have [isFavorite] set, this remains so after any sequence of
    callbacks. *)
Theorem favorites_flagged (h : TranslationHistory) (actions : list (Action Number)) :
  Forall (fun t => isFavorite t = true) (favorites h) ->
  Forall (fun t => isFavorite t = true) (favorites (run h actions)).
Proof.
  revert h. induction actions as [|a actions IH]; intros h Hh; [exact Hh|].
  apply IH. destruct a as [t|i|i|];
    cbn [step addTranslation deleteTranslation clearHistory next favorites].
  - exact Hh.
  - unfold toggleFavorite.
    destruct (find _ _) as [t|]; cbn [next favorites withFavorite isFavorite];
      [|exact Hh].
    destruct (isFavorite t); cbn [negb].
    + apply Forall_forall. intros x Hx. apply filter_In in Hx.
      rewrite Forall_forall in Hh. apply Hh. tauto.
    + constructor; [reflexivity|exact Hh].
  - apply Forall_forall. intros x Hx. apply filter_In in Hx.
    rewrite Forall_forall in Hh. apply Hh. tauto.
  - constructor.
Qed.

Lemma toggleFavorite_unknown_aux (i : string) (h : TranslationHistory) :
  hasId i (translations h) = false ->
  toggleFavorite i h = mkUpdate h None.
Proof.
  intros H. unfold toggleFavorite. rewrite (find_none_hasId _ _ H). reflexivity.
Qed.

(** X3.  [toggleFavorite] looks the id up in the recent list only: when no
    recent entry carries the id the history is returned unchanged and
    nothing is saved -- also when a favourite carries it. *)
Theorem toggleFavorite_unknown (i : string) (h : TranslationHistory) :
  hasId i (translations h) = false ->
  toggleFavorite i h = mkUpdate h None.
Proof. apply toggleFavorite_unknown_aux. Qed.

Lemma run_adds (ts : list Translation) :
  forall h : TranslationHistory,
    ts <> [] ->
    translations (run h (map (@Add Number) ts))
      = firstn 100 (rev ts ++ translations h) /\
    favorites (run h (map (@Add Number) ts)) = favorites h.
Proof.
  induction ts as [|t ts IH]; intros h Hne; [congruence|].
  destruct ts as [|t' ts].
  - cbn. split; reflexivity.
  - specialize (IH (step h (Add t)) ltac:(discriminate)).
    change (run h (map (@Add Number) (t :: t' :: ts)))
      with (run (step h (Add t)) (map (@Add Number) (t' :: ts))).
    destruct IH as [IH1 IH2]. rewrite IH1, IH2. split; [|reflexivity].
    cbn [step addTranslation next translations].
    change (rev (t :: t' :: ts)) with (rev (t' :: ts) ++ [t]).
    rewrite <- app_assoc. cbn [app].
    set (r := rev (t' :: ts)).
    assert (Hr : (1 <= List.length r)%nat).
    { unfold r. rewrite length_rev. cbn. lia. }
    rewrite !firstn_app. f_equal.
    destruct (100 - List.length r)%nat as [|n] eqn:E; [reflexivity|].
    rewrite !firstn_cons. f_equal. rewrite firstn_firstn. f_equal. lia.
Qed.

(** X4.  Eviction.  After 100 or more additions, none of which carries the
    id [i], no recent entry carries [i] any more, while the favourites are
    what they were: a favourite with that id can then no longer be toggled
    ([toggleFavorite] does nothing), and [deleteTranslation] still removes
    it. *)
Theorem favorite_evicted (i : string) (ts : list Translation) (h : TranslationHistory) :
  (100 <= List.length ts)%nat ->
  hasId i ts = false ->
  let h' := run h (map (@Add Number) ts) in
  hasId i (translations h') = false /\
  favorites h' = favorites h /\
  toggleFavorite i h' = mkUpdate h' None /\
  hasId i (favorites (next (deleteTranslation i h'))) = false.
Proof.
  intros Hlen Hid h'.
  assert (Hne : ts <> []) by (destruct ts; [cbn in Hlen; lia|discriminate]).
  destruct (@run_adds ts h Hne) as [Ht Hf]. fold h' in Ht, Hf.
  assert (Hrec : hasId i (translations h') = false).
  { rewrite Ht. rewrite firstn_app.
    replace (100 - List.length (rev ts))%nat with 0%nat
      by (rewrite length_rev; lia).
    rewrite firstn_O, app_nil_r.
    apply existsb_none. intros t Hin. apply firstn_incl, in_rev in Hin.
    exact (hasId_false _ _ Hid t Hin). }
  repeat split; try assumption.
  - apply toggleFavorite_unknown_aux. exact Hrec.
  - cbn. apply existsb_none. intros t Hin. apply filter_In in Hin.
    destruct Hin as [_ Hin]. apply negb_true_iff in Hin. exact Hin.
Qed.

Lemma same_id_same_entry (l : list Translation) (x y : Translation) :
  NoDup (map (@id Number) l) -> In x l -> In y l -> id x = id y -> x = y.
Proof.
  induction l as [|a l IH]; cbn; intros Hnd Hx Hy E; [tauto|].
  inversion Hnd as [|? ? Hna Hnd']; subst.
  destruct Hx as [->|Hx], Hy as [->|Hy]; try reflexivity.
  - exfalso. apply Hna. rewrite E. apply in_map, Hy.
  - exfalso. apply Hna. rewrite <- E. apply in_map, Hx.
  - apply IH; assumption.
Qed.

Lemma find_replaced (i : string) (u : Translation) (l : list Translation) :
  id u = i ->
  find (fun t => id t =? i) l <> None ->
  find (fun t => id t =? i)
       (map (fun t => if id t =? i then u else t) l) = Some u.
Proof.
  intros Hu. induction l as [|a l IH]; cbn; [congruence|].
  destruct (id a =? i) eqn:E.
  - intros _. rewrite Hu, String.eqb_refl. reflexivity.
  - rewrite E. exact IH.
Qed.

Lemma withFavorite_same (t : Translation) :
  withFavorite t (isFavorite t) = t.
Proof. destruct t; reflexivity. Qed.

(** X5.  Marking and unmarking restores the history: when the ids of the
    recent list are pairwise distinct, the entry with id [i] is not a
    favourite and no favourite carries [i], toggling [i] twice gives back
    the history one started from. *)
Theorem toggleFavorite_twice (i : string) (t : Translation) (h : TranslationHistory) :
  NoDup (map (@id Number) (translations h)) ->
  In t (translations h) -> id t = i -> isFavorite t = false ->
  hasId i (favorites h) = false ->
  next (toggleFavorite i (next (toggleFavorite i h))) = h.
Proof.
  intros Hnd Hin Hid Hfav Hnone.
  assert (Hfind : find (fun x => id x =? i) (translations h) = Some t).
  { destruct (find _ (translations h)) as [x|] eqn:E.
    - apply find_some in E. destruct E as [Hx Hxi]. apply String.eqb_eq in Hxi.
      f_equal. apply (same_id_same_entry _ _ _ Hnd Hx Hin). congruence.
    - pose proof (find_none _ _ E t Hin) as F. cbn in F.
      rewrite Hid, String.eqb_refl in F. discriminate. }
  assert (E1 : next (toggleFavorite i h)
               = History.mkHistory
                   (map (fun x => if id x =? i then withFavorite t true else x)
                        (translations h))
                   (withFavorite t true :: favorites h)).
  { unfold toggleFavorite. rewrite Hfind, Hfav. reflexivity. }
  rewrite E1. clear E1. set (u := withFavorite t true).
  assert (Hu : id u = i) by exact Hid.
  assert (Hback : withFavorite u false = t).
  { rewrite <- Hfav. destruct t; reflexivity. }
  unfold toggleFavorite. cbn [translations favorites].
  rewrite (@find_replaced i u (translations h) Hu) by congruence.
  change (isFavorite u) with true. cbn [negb]. rewrite Hback.
  rewrite Hfav. cbn [next].
  destruct h as [ts fs]. cbn [translations favorites] in *. f_equal.
  - rewrite map_map. rewrite <- (map_id ts) at 2. apply map_ext_in.
    intros x Hx. destruct (id x =? i) eqn:E; [|rewrite E; reflexivity].
    rewrite Hu, String.eqb_refl. apply String.eqb_eq in E. symmetry.
    apply (same_id_same_entry _ _ _ Hnd Hx Hin). congruence.
  - cbn [filter]. rewrite Hu, String.eqb_refl. cbn [negb].
    apply filter_all. intros x Hx. apply negb_true_iff.
    exact (hasId_false _ _ Hnone x Hx).
Qed.

(** X6.  [deleteTranslation] removes every entry with the id from both
    lists, keeps the entries with other ids, and deleting again changes
    nothing. *)
Theorem deleteTranslation_removes (i : string) (h : TranslationHistory) :
  let h' := next (deleteTranslation i h) in
  hasId i (translations h') = false /\
  hasId i (favorites h') = false /\
  (forall t, id t <> i ->
     (In t (translations h') <-> In t (translations h)) /\
     (In t (favorites h') <-> In t (favorites h))) /\
  next (deleteTranslation i h') = h'.
Proof.
  cbn [deleteTranslation next translations favorites].
  assert (K : forall l : list Translation,
             hasId i (filter (fun t => negb (id t =? i)) l) = false).
  { intros l. apply existsb_none. intros t Ht. apply filter_In in Ht.
    destruct Ht as [_ Ht]. apply negb_true_iff in Ht. exact Ht. }
  repeat split; try apply K.
  - intros Ht. apply filter_In in Ht. tauto.
  - intros Ht. apply filter_In. split; [exact Ht|].
    apply negb_true_iff, String.eqb_neq. assumption.
  - intros Ht. apply filter_In in Ht. tauto.
  - intros Ht. apply filter_In. split; [exact Ht|].
    apply negb_true_iff, String.eqb_neq. assumption.
  - f_equal; apply filter_all; intros t Ht; apply filter_In in Ht; tauto.
Qed.

(** X7.  Adding an entry with a fresh id to a history of at most 99 recent
    entries and deleting it again gives back the history. *)
Theorem delete_after_add (t : Translation) (h : TranslationHistory) :
  (List.length (translations h) <= 99)%nat ->
  hasId (id t) (translations h) = false ->
  hasId (id t) (favorites h) = false ->
  next (deleteTranslation (id t) (next (addTranslation t h))) = h.
Proof.
  intros Hlen Ht Hf. destruct h as [ts fs].
  cbn [deleteTranslation addTranslation next translations favorites] in *.
  f_equal.
  - cbn [filter]. rewrite String.eqb_refl. cbn [negb].
    rewrite firstn_all2 by exact Hlen.
    apply filter_all. intros x Hx. apply negb_true_iff.
    exact (hasId_false _ _ Ht x Hx).
  - apply filter_all. intros x Hx. apply negb_true_iff.
    exact (hasId_false _ _ Hf x Hx).
Qed.

End HistoryFacts.

Lemma history_bounded_witness :
  (List.length
     (History.translations
        (History.run (History.initial Z)
           [History.Add (sampleEntry "1" false); History.Toggle Z "1";
            History.Add (sampleEntry "2" false); History.Delete Z "1"]))
   <= 100)%nat.
Proof.
  apply (@history_bounded Z (History.initial Z)). cbn. lia.
Defined.

Lemma favorites_flagged_witness :
  Forall (fun t => History.isFavorite t = true)
    (History.favorites
       (History.run (History.initial Z)
          [History.Add (sampleEntry "1" false); History.Toggle Z "1";
           History.Add (sampleEntry "2" false); History.Toggle Z "2";
           History.Toggle Z "1"])).
Proof.
  apply (@favorites_flagged Z (History.initial Z)). constructor.
Defined.

(** A favourite that is not in the recent list. *)
Lemma toggleFavorite_unknown_witness :
  History.toggleFavorite "7"
    (History.mkHistory [sampleEntry "1" false] [sampleEntry "7" true])
  = History.mkUpdate
      (History.mkHistory [sampleEntry "1" false] [sampleEntry "7" true]) None.
Proof.
  apply (@toggleFavorite_unknown Z "7"). reflexivity.
Defined.

(** One favourite, then a hundred further translations. *)
Lemma favorite_evicted_witness :
  let h' := History.run
              (History.mkHistory [sampleEntry "old" true] [sampleEntry "old" true])
              (map (@History.Add Z) (repeat (sampleEntry "new" false) 100)) in
  History.hasId "old" (History.translations h') = false /\
  History.favorites h' = [sampleEntry "old" true] /\
  History.toggleFavorite "old" h' = History.mkUpdate h' None /\
  History.hasId "old"
    (History.favorites (History.next (History.deleteTranslation "old" h'))) = false.
Proof.
  apply (@favorite_evicted Z "old" (repeat (sampleEntry "new" false) 100)
           (History.mkHistory [sampleEntry "old" true] [sampleEntry "old" true])).
  - rewrite repeat_length. apply le_n.
  - vm_compute. reflexivity.
Defined.

Lemma toggleFavorite_twice_witness :
  History.next
    (History.toggleFavorite "2"
       (History.next
          (History.toggleFavorite "2"
             (History.mkHistory
                [sampleEntry "1" false; sampleEntry "2" false]
                [sampleEntry "3" true]))))
  = History.mkHistory [sampleEntry "1" false; sampleEntry "2" false]
      [sampleEntry "3" true].
Proof.
  apply (@toggleFavorite_twice Z "2" (sampleEntry "2" false)).
  - cbn. repeat constructor; cbn; intuition discriminate.
  - cbn. tauto.
  - reflexivity.
  - reflexivity.
  - reflexivity.
Defined.

Lemma delete_after_add_witness :
  History.next
    (History.deleteTranslation "9"
       (History.next
          (History.addTranslation (sampleEntry "9" false)
             (History.mkHistory [sampleEntry "1" false] [sampleEntry "3" true]))))
  = History.mkHistory [sampleEntry "1" false] [sampleEntry "3" true].
Proof.
  apply (@delete_after_add Z (sampleEntry "9" false)).
  - cbn. lia.
  - reflexivity.
  - reflexivity.
Defined.

(* ================================================================== *)
(** ** The application component *)

Section AppFacts.

Import App.
Local Open Scope list_scope.

Variable lower : jsstring -> jsstring.
Variable apiKey : option jsstring.

Lemma trimStart_blank (s : jsstring) :
  Forall (fun c => isWhiteSpace c = true) s -> trimStart s = [].
Proof.
  induction 1 as [|c s Hc Hs IH]; cbn; [reflexivity|]. rewrite Hc. exact IH.
Qed.

Lemma trimStart_nil_inv (s : jsstring) :
  trimStart s = [] -> Forall (fun c => isWhiteSpace c = true) s.
Proof.
  induction s as [|c s IH]; cbn; [constructor|].
  destruct (isWhiteSpace c) eqn:E; [|discriminate].
  intros H. constructor; [exact E|apply IH, H].
Qed.

Lemma trimStart_head (t : jsstring) :
  forall c r, trimStart t = c :: r -> isWhiteSpace c = false.
Proof.
  induction t as [|a t IH]; cbn; [discriminate|].
  destruct (isWhiteSpace a) eqn:E; [exact IH|].
  intros c r H. injection H as <- _. exact E.
Qed.

(** [!text.trim()] holds exactly of the white-space-only strings. *)
Lemma trim_blank_iff (s : jsstring) :
  trim s = [] <-> Forall (fun c => isWhiteSpace c = true) s.
Proof.
  unfold trim. split.
  - intros H. apply trimStart_nil_inv.
    assert (H1 : trimStart (rev (trimStart s)) = []).
    { destruct (trimStart (rev (trimStart s))) as [|c r]; [reflexivity|].
      cbn in H. destruct (rev r); discriminate H. }
    apply trimStart_nil_inv, Forall_rev in H1. rewrite rev_involutive in H1.
    destruct (trimStart s) as [|c r] eqn:E; [reflexivity|].
    inversion H1 as [|? ? Hc _]; subst.
    rewrite (trimStart_head _ E) in Hc. discriminate.
  - intros H. rewrite (trimStart_blank H). reflexivity.
Qed.

Lemma sameUnits_eq (a : jsstring) :
  forall b, sameUnits a b = true <-> a = b.
Proof.
  induction a as [|x a IH]; intros [|y b]; cbn; split; try congruence.
  - rewrite andb_true_iff, Z.eqb_eq, IH. intros [-> ->]. reflexivity.
  - intros E. injection E as -> ->. rewrite Z.eqb_refl. apply IH. reflexivity.
Qed.

Lemma callGeminiApi_cases (reply : Reply) (prompt : jsstring) (st : State) :
  callGeminiApi apiKey reply prompt st =
  if falsy apiKey then ([], st, Throw)
  else match replyText reply with
       | Some t => ([Gemini prompt], st, Normal t)
       | None => (Gemini prompt :: replyLog reply, st, Throw)
       end.
Proof.
  unfold callGeminiApi. destruct (falsy apiKey); [reflexivity|].
  destruct reply as [|[cands]]; [reflexivity|].
  destruct cands as [[|[cont] cs]|]; try reflexivity.
  destruct cont as [[pts]|]; try reflexivity.
  destruct pts as [[|p ps]|]; reflexivity.
Qed.

Ltac perform_unfold :=
  unfold performTranslation, App.detectLanguage, translateTextWithGemini;
  cbv [UI.bind UI.ret UI.get UI.modify UI.emit UI.throw UI.tryCatchFinally
       UI.state UI.events UI.outcome];
  rewrite ?callGeminiApi_cases.

Ltac perform_settle :=
  cbn [fst snd app filter isGemini List.length replyLog];
  repeat split; try lia;
  first [ left; eexists _, _; repeat split; fail
        | right; left; repeat split; fail
        | right; right; repeat split; fail ].

(** The effect never touches the selected languages or the source text. *)
Lemma perform_frame (d t : Reply) (now : jsstring) (st : State) :
  let st' := UI.state (performTranslation lower apiKey d t now st) in
  sourceLanguage st' = sourceLanguage st /\
  targetLanguage st' = targetLanguage st /\
  sourceText st' = sourceText st.
Proof.
  perform_unfold.
  destruct (trim (sourceText st)); [repeat split|].
  destruct (code (sourceLanguage st) =? "auto");
    rewrite ?callGeminiApi_cases; cbn [fst snd];
    destruct (falsy apiKey); cbn [fst snd]; try (repeat split; fail).
  - destruct (replyText d); cbn [fst snd]; [|repeat split].
    destruct (findByCode languages _); [|repeat split].
    destruct (negb _); cbn [fst snd app]; rewrite ?callGeminiApi_cases;
      [|repeat split].
    destruct (falsy apiKey); [repeat split|].
    destruct (replyText t); repeat split.
  - destruct (replyText t); repeat split.
Qed.

Lemma findByCode_some (avail : list Language) (c : jsstring) (l : Language) :
  findByCode avail c = Some l -> In l avail /\ lit (code l) = c.
Proof.
  intros H. apply find_some in H. destruct H as [Hin Hc].
  apply sameUnits_eq in Hc. split; assumption.
Qed.

Lemma step_wellSelected (st : State) (a : Action) :
  wellSelected st -> wellSelected (step lower apiKey st a).
Proof.
  intros (Hs & Ht & Hna). destruct a as [v|v| |s0|d t now]; cbn [step].
  - unfold onChange. destruct (findByCode _ v) as [l|] eqn:E; [|repeat split; assumption].
    apply findByCode_some in E. repeat split; try assumption. apply E.
  - unfold onChange. destruct (findByCode _ v) as [l|] eqn:E; [|repeat split; assumption].
    apply findByCode_some in E. destruct E as [E _].
    apply filter_In in E. destruct E as [Hin Hc].
    apply negb_true_iff, String.eqb_neq in Hc. repeat split; assumption.
  - unfold handleSwapLanguages.
    destruct (code (sourceLanguage st) =? "auto") eqn:E; cbn [negb];
      [repeat split; assumption|].
    apply String.eqb_neq in E. repeat split; assumption.
  - repeat split; assumption.
  - destruct (perform_frame d t now st) as (E1 & E2 & _).
    unfold wellSelected. rewrite E1, E2. repeat split; assumption.
Qed.

(** X8.  From the initial state, whatever the user picks, swaps and types
    and whatever the remote end answers, both selected languages are
    catalog entries and the target language is never the [auto]
    pseudo-language. *)
Theorem target_never_auto (actions : list Action) :
  wellSelected (run lower apiKey initial actions).
Proof.
  unfold run.
  assert (H0 : wellSelected initial).
  { unfold wellSelected, initial. cbn. repeat split; try tauto. discriminate. }
  revert H0. generalize initial. induction actions as [|a actions IH];
    intros st Hst; cbn [fold_left]; [exact Hst|].
  apply IH, step_wellSelected, Hst.
Qed.

(** X9.  Swapping twice: when neither selected language is [auto], two
    swaps give back the languages and both texts; only the error message
    is cleared. *)
Theorem swap_twice (st : State) :
  code (sourceLanguage st) <> "auto" ->
  code (targetLanguage st) <> "auto" ->
  handleSwapLanguages (handleSwapLanguages st) = setError None st.
Proof.
  intros Hs Ht. apply String.eqb_neq in Hs, Ht.
  unfold handleSwapLanguages at 2. rewrite Hs. cbn [negb].
  unfold handleSwapLanguages. cbn. rewrite Ht. cbn [negb].
  destruct st; reflexivity.
Qed.

(** With [auto] as the source the swap button does nothing. *)
Lemma swap_auto (st : State) :
  code (sourceLanguage st) = "auto" -> handleSwapLanguages st = st.
Proof.
  intros H. unfold handleSwapLanguages. rewrite H. reflexivity.
Qed.

(** X10.  On an empty or white-space-only source text the effect sends no
    request and logs nothing: it empties the translation, clears the error
    and leaves everything else, the busy flag included, as it is. *)
Theorem perform_blank (d t : Reply) (now : jsstring) (st : State) :
  Forall (fun c => isWhiteSpace c = true) (sourceText st) ->
  performTranslation lower apiKey d t now st
  = ([], setError None (setTranslatedText [] st), Normal tt).
Proof.
  intros H. apply trim_blank_iff in H. perform_unfold. rewrite H. reflexivity.
Qed.

(** X11.  On any other source text the effect never throws, sends at most
    two requests, ends with the busy flag off, and leaves exactly one of
    three states: a new history entry in front with its translation shown
    and no error; the could-not-detect message with the shown translation
    and the history untouched; or the error-occurred message with the
    shown translation emptied and the history untouched. *)
Theorem perform_outcomes (d t : Reply) (now : jsstring) (st : State) :
  trim (sourceText st) <> [] ->
  let r := performTranslation lower apiKey d t now st in
  UI.outcome r = Normal tt /\
  (List.length (filter isGemini (UI.events r)) <= 2)%nat /\
  isTranslating (UI.state r) = false /\
  ((exists actual result,
       error (UI.state r) = None /\
       translatedText (UI.state r) = result /\
       translationHistory (UI.state r)
         = Result.mkResult (sourceText st) result actual (targetLanguage st) now
             :: translationHistory st) \/
   (error (UI.state r) = Some couldNotDetect /\
    translatedText (UI.state r) = translatedText st /\
    translationHistory (UI.state r) = translationHistory st) \/
   (error (UI.state r) = Some errorOccurred /\
    translatedText (UI.state r) = [] /\
    translationHistory (UI.state r) = translationHistory st)).
Proof.
  intros Hne. perform_unfold.
  destruct (trim (sourceText st)) as [|c0 r0]; [congruence|]. clear Hne.
  destruct (code (sourceLanguage st) =? "auto");
    rewrite ?callGeminiApi_cases; cbn [fst snd];
    destruct (falsy apiKey); try perform_settle.
  - destruct (replyText d); [|destruct d; perform_settle].
    cbn [fst snd].
    destruct (findByCode languages _); [|perform_settle].
    destruct (negb _); cbn [fst snd app]; rewrite ?callGeminiApi_cases;
      [|perform_settle].
    destruct (falsy apiKey); [perform_settle|].
    destruct (replyText t); [|destruct t]; perform_settle.
  - destruct (replyText t); [|destruct t]; perform_settle.
Qed.

Lemma two_units_not_und (c : jsstring) :
  (List.length c <= 2)%nat -> sameUnits c (lit "und") = false.
Proof.
  intros H. destruct (sameUnits c (lit "und")) eqn:E; [|reflexivity].
  apply sameUnits_eq in E. subst c. vm_compute in H. lia.
Qed.

Lemma slice0_length (n : nat) (s0 : jsstring) : (List.length (slice0 n s0) <= n)%nat.
Proof. unfold slice0. rewrite length_firstn. lia. Qed.

Lemma detectLanguage_cases (reply : Reply) (text : jsstring) (st : State) :
  App.detectLanguage lower apiKey reply text st =
  if falsy apiKey then ([], st, Throw)
  else match replyText reply with
       | Some r => ([Gemini (detectPrompt text)], st,
                    Normal (slice0 2 (lower (trim r))))
       | None => (Gemini (detectPrompt text) :: replyLog reply, st, Throw)
       end.
Proof.
  unfold App.detectLanguage. cbv [UI.bind UI.ret].
  rewrite callGeminiApi_cases.
  destruct (falsy apiKey); [reflexivity|].
  destruct (replyText reply); reflexivity.
Qed.

(** X12.  The detected code is the first two units of the trimmed,
    lower-cased reply: it has at most two units, so it is never ['und'] --
    the test [detectedCode !== 'und'] always holds -- and the catalog entry
    found for it is never the [auto] entry. *)
Theorem detected_code (reply : Reply) (text : jsstring) (st : State) (c : jsstring) :
  UI.outcome (App.detectLanguage lower apiKey reply text st) = Normal c ->
  (List.length c <= 2)%nat /\
  sameUnits c (lit "und") = false /\
  forall l, findByCode languages c = Some l -> code l <> "auto".
Proof.
  rewrite detectLanguage_cases. unfold UI.outcome.
  destruct (falsy apiKey); [discriminate|].
  destruct (replyText reply) as [r|]; [|discriminate].
  cbn [snd]. intros E. injection E as <-.
  pose proof (slice0_length 2 (lower (trim r))) as L.
  split; [exact L|]. split; [apply two_units_not_und, L|].
  intros l Hl Hc. apply findByCode_some in Hl. destruct Hl as [_ Hl].
  apply (f_equal (@List.length _)) in Hl. rewrite Hc in Hl.
  change (List.length (lit "auto")) with 4%nat in Hl.
  assert (F : (4 <= 2)%nat) by (eapply Nat.le_trans; [|exact L]; rewrite Hl; apply le_n).
  lia.
Qed.

(** X13.  Detection that names no catalog language: with [auto] as the
    source, a key, and a reply whose code is not in the catalog, the effect
    sends the detection request only, shows the could-not-detect message,
    and leaves the shown translation and the history as they were. *)
Theorem perform_undetected (d t : Reply) (now reply : jsstring) (st : State) :
  trim (sourceText st) <> [] ->
  code (sourceLanguage st) = "auto" ->
  falsy apiKey = false ->
  replyText d = Some reply ->
  findByCode languages (slice0 2 (lower (trim reply))) = None ->
  let r := performTranslation lower apiKey d t now st in
  UI.events r = [Gemini (detectPrompt (sourceText st))] /\
  error (UI.state r) = Some couldNotDetect /\
  translatedText (UI.state r) = translatedText st /\
  translationHistory (UI.state r) = translationHistory st /\
  isTranslating (UI.state r) = false.
Proof.
  intros Hne Ha Hk Hd Hf. perform_unfold.
  destruct (trim (sourceText st)) as [|c0 r0]; [congruence|].
  rewrite Ha. cbn [String.eqb Ascii.eqb Bool.eqb andb].
  rewrite ?callGeminiApi_cases, Hk, Hd. cbn [fst snd]. rewrite Hf.
  repeat split.
Qed.

(** X14.  Detection that names a catalog language: the effect sends the
    detection request, logs, sends the translation request from the
    detected to the target language -- also when the two are the same --
    shows the reply and puts an entry with the detected language, which is
    a catalog entry other than [auto], in front of the history. *)
Theorem perform_detected (d t : Reply) (now reply result : jsstring)
        (l : Language) (st : State) :
  trim (sourceText st) <> [] ->
  code (sourceLanguage st) = "auto" ->
  falsy apiKey = false ->
  replyText d = Some reply ->
  findByCode languages (slice0 2 (lower (trim reply))) = Some l ->
  replyText t = Some result ->
  let r := performTranslation lower apiKey d t now st in
  UI.events r
    = [Gemini (detectPrompt (sourceText st)); ConsoleLog;
       Gemini (translatePrompt (sourceText st) (lit (code l))
                 (lit (code (targetLanguage st))))] /\
  error (UI.state r) = None /\
  translatedText (UI.state r) = result /\
  translationHistory (UI.state r)
    = Result.mkResult (sourceText st) result l (targetLanguage st) now
        :: translationHistory st /\
  isTranslating (UI.state r) = false /\
  In l languages /\ code l <> "auto".
Proof.
  intros Hne Ha Hk Hd Hf Ht.
  assert (L : (List.length (slice0 2 (lower (trim reply))) <= 2)%nat)
    by apply slice0_length.
  assert (Hl : In l languages /\ code l <> "auto").
  { pose proof (findByCode_some _ _ Hf) as [Hin Hc]. split; [exact Hin|].
    intros E. apply (f_equal (@List.length _)) in Hc. rewrite E in Hc.
    change (List.length (lit "auto")) with 4%nat in Hc.
    assert (F : (4 <= 2)%nat) by (eapply Nat.le_trans; [|exact L]; rewrite Hc; apply le_n).
    lia. }
  perform_unfold.
  destruct (trim (sourceText st)) as [|c0 r0]; [congruence|].
  rewrite Ha. cbn [String.eqb Ascii.eqb Bool.eqb andb].
  rewrite ?callGeminiApi_cases, Hk, Hd. cbn [fst snd]. rewrite Hf.
  rewrite (@two_units_not_und _ L). cbn [negb fst snd app].
  rewrite ?callGeminiApi_cases, Hk, Ht.
  repeat split; apply Hl.
Qed.

(** A chosen source language: the effect sends one request, the
    translation from the chosen to the target language -- also when the
    two are the same -- and no detection request. *)
Lemma perform_chosen (d t : Reply) (now result : jsstring) (st : State) :
  trim (sourceText st) <> [] ->
  code (sourceLanguage st) <> "auto" ->
  falsy apiKey = false ->
  replyText t = Some result ->
  let r := performTranslation lower apiKey d t now st in
  UI.events r
    = [Gemini (translatePrompt (sourceText st) (lit (code (sourceLanguage st)))
                 (lit (code (targetLanguage st))))] /\
  error (UI.state r) = None /\
  translatedText (UI.state r) = result /\
  translationHistory (UI.state r)
    = Result.mkResult (sourceText st) result (sourceLanguage st)
        (targetLanguage st) now :: translationHistory st /\
  isTranslating (UI.state r) = false.
Proof.
  intros Hne Ha Hk Ht. apply String.eqb_neq in Ha. perform_unfold.
  destruct (trim (sourceText st)) as [|c0 r0]; [congruence|].
  rewrite Ha. rewrite ?callGeminiApi_cases, Hk, Ht. repeat split.
Qed.

(** X15.  Without an API key no request leaves the component: on a
    non-blank text the effect logs one error, shows the error-occurred
    message and empties the shown translation. *)
Theorem perform_without_key (d t : Reply) (now : jsstring) (st : State) :
  trim (sourceText st) <> [] ->
  falsy apiKey = true ->
  let r := performTranslation lower apiKey d t now st in
  UI.events r = [ConsoleError] /\
  error (UI.state r) = Some errorOccurred /\
  translatedText (UI.state r) = [] /\
  translationHistory (UI.state r) = translationHistory st /\
  isTranslating (UI.state r) = false.
Proof.
  intros Hne Hk. perform_unfold.
  destruct (trim (sourceText st)) as [|c0 r0]; [congruence|].
  destruct (code (sourceLanguage st) =? "auto");
    rewrite ?callGeminiApi_cases, Hk; repeat split.
Qed.

End AppFacts.

Lemma swap_twice_witness :
  App.handleSwapLanguages
    (App.handleSwapLanguages (sampleState French English "bonjour"))
  = App.setError None (sampleState French English "bonjour").
Proof.
  apply swap_twice; cbn; discriminate.
Defined.

Lemma perform_blank_witness :
  App.performTranslation toLowerCase (Some (lit "key"))
    (sampleReply "en") (sampleReply "hola") (lit "2024")
    (sampleState Auto English "   ")
  = ([], App.setError None (App.setTranslatedText [] (sampleState Auto English "   ")),
     Normal tt).
Proof.
  apply perform_blank. repeat constructor.
Defined.

Lemma perform_outcomes_witness :
  UI.outcome
    (App.performTranslation toLowerCase (Some (lit "key"))
       App.Rejected (sampleReply "hola") (lit "2024")
       (sampleState Auto English "hello")) = Normal tt.
Proof.
  apply (@perform_outcomes toLowerCase (Some (lit "key")) App.Rejected
           (sampleReply "hola") (lit "2024") (sampleState Auto English "hello")).
  vm_compute. discriminate.
Defined.

(** The reply [" EN "] is read as ["en"]. *)
Lemma detected_code_witness :
  (List.length (lit "en") <= 2)%nat /\
  sameUnits (lit "en") (lit "und") = false /\
  forall l, App.findByCode languages (lit "en") = Some l -> code l <> "auto".
Proof.
  apply (@detected_code toLowerCase (Some (lit "key")) (sampleReply " EN ")
           (lit "hello") (sampleState Auto English "hello") (lit "en")).
  vm_compute. reflexivity.
Defined.

(** The reply ["und"] is cut to ["un"], which no catalog entry carries. *)
Lemma perform_undetected_witness :
  let r := App.performTranslation toLowerCase (Some (lit "key"))
             (sampleReply "und") (sampleReply "hola") (lit "2024")
             (sampleState Auto English "hello") in
  UI.events r = [App.Gemini (App.detectPrompt (lit "hello"))] /\
  App.error (UI.state r) = Some App.couldNotDetect /\
  App.translatedText (UI.state r) = lit "old" /\
  App.translationHistory (UI.state r) = [] /\
  App.isTranslating (UI.state r) = false.
Proof.
  apply (@perform_undetected toLowerCase (Some (lit "key")) (sampleReply "und")
           (sampleReply "hola") (lit "2024") (lit "und")
           (sampleState Auto English "hello")).
  - vm_compute. discriminate.
  - reflexivity.
  - reflexivity.
  - reflexivity.
  - vm_compute. reflexivity.
Defined.

(** English detected, English the target: the request is sent all the
    same. *)
Lemma perform_detected_witness :
  let r := App.performTranslation toLowerCase (Some (lit "key"))
             (sampleReply "en") (sampleReply "hello") (lit "2024")
             (sampleState Auto English "hello") in
  UI.events r
    = [App.Gemini (App.detectPrompt (lit "hello")); App.ConsoleLog;
       App.Gemini (App.translatePrompt (lit "hello") (lit "en") (lit "en"))] /\
  App.error (UI.state r) = None /\
  App.translatedText (UI.state r) = lit "hello" /\
  App.translationHistory (UI.state r)
    = [App.Result.mkResult (lit "hello") (lit "hello") English English (lit "2024")] /\
  App.isTranslating (UI.state r) = false /\
  In English languages /\ code English <> "auto".
Proof.
  apply (@perform_detected toLowerCase (Some (lit "key")) (sampleReply "en")
           (sampleReply "hello") (lit "2024") (lit "en") (lit "hello") English
           (sampleState Auto English "hello")).
  - vm_compute. discriminate.
  - reflexivity.
  - reflexivity.
  - reflexivity.
  - vm_compute. reflexivity.
  - reflexivity.
Defined.

Lemma perform_without_key_witness :
  let r := App.performTranslation toLowerCase None
             (sampleReply "en") (sampleReply "hello") (lit "2024")
             (sampleState French English "bonjour") in
  UI.events r = [App.ConsoleError] /\
  App.error (UI.state r) = Some App.errorOccurred /\
  App.translatedText (UI.state r) = [] /\
  App.translationHistory (UI.state r) = [] /\
  App.isTranslating (UI.state r) = false.
Proof.
  apply (@perform_without_key toLowerCase None (sampleReply "en")
           (sampleReply "hello") (lit "2024") (sampleState French English "bonjour")).
  - vm_compute. discriminate.
  - reflexivity.
Defined.

(* ================================================================== *)
(** ** The translation calls of the service *)

Section ApiFacts.

Import TranslationAPI.
Local Open Scope list_scope.

Variable lower : jsstring -> jsstring.
Variable uriMessage : jsstring.

Lemma digits_no_f (d : Decimal.uint) : Forall (fun c => c <> 0x66%Z) (digits d).
Proof.
  induction d; cbn [digits]; constructor; try assumption; discriminate.
Qed.

(** The message of a non-OK response holds no ["fetch"]: it has no [f]. *)
Lemma status_message_no_fetch (status : nat) :
  includes (lit "Translation API error: " ++ decimal status) (lit "fetch") = false.
Proof.
  change (lit "fetch") with (0x66 :: lit "etch")%Z.
  apply includes_head_absent. apply Forall_app. split.
  - apply Forall_forall. intros c Hc.
    assert (K : forallb (fun c => negb (c =? 0x66)%Z)
                        (lit "Translation API error: ") = true)
      by (vm_compute; reflexivity).
    rewrite forallb_forall in K. specialize (K c Hc).
    apply negb_true_iff, Z.eqb_neq in K. exact K.
  - apply digits_no_f.
Qed.

(** Same source and target code: [translate] returns the text as it
    is and sends nothing, whatever the text and the remote ends. *)
Lemma translate_same_language (myMemory : MyMemoryReply) (google : GoogleReply)
        (text : jsstring) (sourceLanguage targetLanguage : Language) :
  code sourceLanguage = code targetLanguage ->
  translate lower uriMessage myMemory google text sourceLanguage targetLanguage
  = ([], Returns (JString text)).
Proof.
  intros H. unfold translate. rewrite H, String.eqb_refl. reflexivity.
Qed.

(** The bracketed notice is not the empty string. *)
Lemma notice_truthy (s t : Language) : truthy (JString (notice s t)) = true.
Proof.
  unfold notice.
  replace (lit "[Translation from ") with (0x5B%Z :: lit "Translation from ")
    by (vm_compute; reflexivity).
  reflexivity.
Qed.

(** A truthy first segment sits under three truthy values. *)
Lemma firstSegment_truthy (data r : Value) :
  firstSegment data = Some r -> truthy r = true ->
  exists d0 d00,
    truthy data = true /\ first data = Some d0 /\
    truthy d0 = true /\ first d0 = Some d00 /\
    truthy d00 = true /\ first d00 = Some r.
Proof.
  unfold firstSegment. cbn [andFirst].
  destruct (truthy data) eqn:T.
  2:{ cbn [andFirst]. rewrite T. cbn [andFirst]. rewrite T.
      intros E. injection E as <-. congruence. }
  destruct (first data) as [d0|] eqn:F0; [|discriminate].
  cbn [andFirst]. destruct (truthy d0) eqn:T0.
  2:{ cbn [andFirst]. rewrite T0. intros E. injection E as <-. congruence. }
  destruct (first d0) as [d00|] eqn:F00; [|discriminate].
  cbn [andFirst]. destruct (truthy d00) eqn:T00.
  2:{ intros E. injection E as <-. congruence. }
  intros F000 _. exists d0, d00. repeat split; assumption.
Qed.

(** The fallback, read off its paths. *)
Lemma fallbackTranslation_cases (google : GoogleReply) (text : jsstring)
      (s t : Language) :
  fallbackTranslation uriMessage google text s t =
  if wellFormed text then
    match google with
    | GoogleFails => ([Google (code s) (code t) text; ConsoleError],
                      Returns (JString (notice s t)))
    | GoogleJson data =>
      ([Google (code s) (code t) text],
       Returns (segmentOr (firstSegment data) (JString (notice s t))))
    end
  else ([ConsoleError], Returns (JString (notice s t))).
Proof.
  unfold fallbackTranslation, encodeURIComponent, segmentOr.
  destruct (wellFormed text); [|reflexivity].
  destruct google as [|data]; [reflexivity|].
  destruct (firstSegment data) as [v|]; [|reflexivity].
  cbn [truthyOr]. destruct (truthy v); reflexivity.
Qed.

(** X16.  [fallbackTranslation] never throws, and what it returns is
    truthy: either the bracketed notice naming the two languages, or the
    value at [data[0][0][0]] of a reply to a request that was sent, found
    under three truthy values and returned as it stands, a string or
    not. *)
Theorem fallbackTranslation_total (google : GoogleReply) (text : jsstring)
        (s t : Language) :
  exists r,
    outcome (fallbackTranslation uriMessage google text s t) = Returns r /\
    truthy r = true /\
    (r = JString (notice s t) \/
     wellFormed text = true /\
     exists data d0 d00,
       google = GoogleJson data /\
       truthy data = true /\ first data = Some d0 /\
       truthy d0 = true /\ first d0 = Some d00 /\
       truthy d00 = true /\ first d00 = Some r).
Proof.
  rewrite fallbackTranslation_cases.
  destruct (wellFormed text);
    [|eexists; split; [reflexivity|split; [apply notice_truthy|left; reflexivity]]].
  destruct google as [|data];
    [eexists; split; [reflexivity|split; [apply notice_truthy|left; reflexivity]]|].
  unfold segmentOr.
  destruct (firstSegment data) as [v|] eqn:F;
    [|eexists; split; [reflexivity|split; [apply notice_truthy|left; reflexivity]]].
  destruct (truthy v) eqn:Tv;
    [|eexists; split; [reflexivity|split; [apply notice_truthy|left; reflexivity]]].
  exists v. split; [reflexivity|]. split; [exact Tv|]. right. split; [reflexivity|].
  destruct (@firstSegment_truthy data v F Tv) as (d0 & d00 & H).
  exists data, d0, d00. split; [reflexivity|exact H].
Qed.

Lemma catch_cases {A} (before : list Call) (message : jsstring) :
  tryCatch (A:=A) (before, Throws message)
    (fun message =>
       bind (emit ConsoleError)
            (fun _ => if includes message (lit "fetch") then throw unavailable
                      else throw failed))
  = (before ++ [ConsoleError], Throws (caught message)).
Proof.
  unfold tryCatch, caught, bind, emit, throw.
  destruct (includes message (lit "fetch")); reflexivity.
Qed.

(** [translate], read off its paths. *)
Lemma translate_cases (myMemory : MyMemoryReply) (google : GoogleReply)
      (text : jsstring) (s t : Language) :
  translate lower uriMessage myMemory google text s t =
  if code s =? code t then ([], Returns (JString text))
  else if wellFormed text then
    match myMemory with
    | FetchFails message =>
      ([MyMemory text (code s) (code t); ConsoleError], Throws (caught message))
    | Response false status _ =>
      ([MyMemory text (code s) (code t); ConsoleError],
       Throws (caught (lit "Translation API error: " ++ decimal status)))
    | Response true _ (NotJson message) =>
      ([MyMemory text (code s) (code t); ConsoleError], Throws (caught message))
    | Response true _ (Malformed message) =>
      ([MyMemory text (code s) (code t); ConsoleError], Throws (caught message))
    | Response true _ (Data true (Some translatedText)) =>
      if sameUnits (trim (lower translatedText)) (trim (lower text))
      then (MyMemory text (code s) (code t)
              :: events (fallbackTranslation uriMessage google text s t),
            outcome (fallbackTranslation uriMessage google text s t))
      else ([MyMemory text (code s) (code t)], Returns (JString translatedText))
    | Response true _ (Data _ _) =>
      ([MyMemory text (code s) (code t); ConsoleError],
       Throws (caught (lit "Translation failed: Invalid response from API")))
    end
  else ([ConsoleError], Throws (caught uriMessage)).
Proof.
  unfold translate, encodeURIComponent.
  destruct (code s =? code t); [reflexivity|].
  destruct (wellFormed text) eqn:Hw.
  2:{ unfold bind at 1, throw at 1. apply (catch_cases []). }
  unfold bind at 1, ret at 1. unfold bind at 1, emit at 1.
  destruct myMemory as [m|[] status body].
  - unfold throw at 1. apply (catch_cases [MyMemory text (code s) (code t)]).
  - cbn [negb]. destruct body as [m|m|[] [tr|]];
      try (unfold throw at 1;
           apply (catch_cases [MyMemory text (code s) (code t)])).
    destruct (sameUnits _ _).
    + rewrite fallbackTranslation_cases, Hw.
      destruct google; reflexivity.
    + reflexivity.
  - cbn [negb]. unfold throw at 1.
    apply (catch_cases [MyMemory text (code s) (code t)]).
Qed.

Lemma caught_either (message : jsstring) :
  caught message = failed \/ caught message = unavailable.
Proof.
  unfold caught. destruct (includes _ _); [right|left]; reflexivity.
Qed.

Lemma translate_throws (myMemory : MyMemoryReply) (google : GoogleReply)
        (text : jsstring) (s t : Language) (message : jsstring) :
  outcome (translate lower uriMessage myMemory google text s t) = Throws message ->
  (message = failed \/ message = unavailable) /\
  exists before,
    events (translate lower uriMessage myMemory google text s t)
      = before ++ [ConsoleError].
Proof.
  rewrite translate_cases. unfold outcome, events.
  assert (K : forall before m,
             snd (before ++ [ConsoleError], Throws (A:=Value) (caught m))
               = Throws message ->
             (message = failed \/ message = unavailable) /\
             exists b, fst (before ++ [ConsoleError],
                            Throws (A:=Value) (caught m)) = b ++ [ConsoleError]).
  { intros before m E. cbn [snd] in E. injection E as <-.
    split; [apply caught_either|exists before; reflexivity]. }
  destruct (code s =? code t); [discriminate|].
  destruct (wellFormed text) eqn:Hw; [|apply (K [])].
  destruct myMemory as [m|[] status body];
    try apply (K [MyMemory text (code s) (code t)]).
  destruct body as [m|m|[] [tr|]];
    try apply (K [MyMemory text (code s) (code t)]).
  destruct (sameUnits _ _); [|discriminate].
  rewrite fallbackTranslation_cases, Hw.
  destruct google; discriminate.
Qed.

(** X17.  [translate] fails with one of two messages only, and logs the
    error it caught before it does. *)
Theorem translate_messages (myMemory : MyMemoryReply) (google : GoogleReply)
        (text : jsstring) (s t : Language) (message : jsstring) :
  outcome (translate lower uriMessage myMemory google text s t) = Throws message ->
  (message = failed \/ message = unavailable) /\
  exists before,
    events (translate lower uriMessage myMemory google text s t)
      = before ++ [ConsoleError].
Proof. apply translate_throws. Qed.

(** X18.  A response that is not OK, whatever its status, makes
    [translate] fail with the try-again message, never with the
    service-unavailable one; one request was sent. *)
Theorem translate_not_ok (status : nat) (body : Body) (google : GoogleReply)
        (text : jsstring) (s t : Language) :
  code s <> code t ->
  wellFormed text = true ->
  translate lower uriMessage (Response false status body) google text s t
  = ([MyMemory text (code s) (code t); ConsoleError], Throws failed).
Proof.
  intros Hc Hw. apply String.eqb_neq in Hc.
  rewrite translate_cases, Hc, Hw. unfold caught.
  rewrite status_message_no_fetch. reflexivity.
Qed.

(** X19.  An OK response with status 200 and a translated text: when that
    text is the input again, up to case and surrounding white space, the
    result is the fallback's; otherwise it is the translated text. *)
Theorem translate_ok (status : nat) (translatedText : jsstring)
        (google : GoogleReply) (text : jsstring) (s t : Language) :
  code s <> code t ->
  wellFormed text = true ->
  translate lower uriMessage
    (Response true status (Data true (Some translatedText))) google text s t
  = if sameUnits (trim (lower translatedText)) (trim (lower text))
    then (MyMemory text (code s) (code t)
            :: events (fallbackTranslation uriMessage google text s t),
          outcome (fallbackTranslation uriMessage google text s t))
    else ([MyMemory text (code s) (code t)], Returns (JString translatedText)).
Proof.
  intros Hc Hw. apply String.eqb_neq in Hc.
  rewrite translate_cases, Hc, Hw. reflexivity.
Qed.

End ApiFacts.

(** The usual reply, [[[["hola","hello",null,null,10]],null,"en"]]. *)
Example fallback_segment :
  TranslationAPI.fallbackTranslation (lit "URI malformed")
    (TranslationAPI.GoogleJson
       (JArray [JArray [JArray [JString (lit "hola"); JString (lit "hello");
                                JNull; JNull; JNumber PrimFloat.two]];
                JNull; JString (lit "en")]))
    (lit "hello") English French
  = ([TranslationAPI.Google "en" "fr" (lit "hello")],
     TranslationAPI.Returns (JString (lit "hola"))).
Proof. vm_compute. reflexivity. Qed.

(** A first segment that is not a string is returned as it stands:
    [[[1]]] gives the number [1]; and the body ["hola"] gives ["h"], the
    first code unit of the first code unit of the first code unit. *)
Example fallback_not_a_segment :
  TranslationAPI.outcome
    (TranslationAPI.fallbackTranslation (lit "URI malformed")
       (TranslationAPI.GoogleJson (JArray [JArray [JArray [JNumber PrimFloat.one]]]))
       (lit "hello") English French)
  = TranslationAPI.Returns (JNumber PrimFloat.one) /\
  TranslationAPI.outcome
    (TranslationAPI.fallbackTranslation (lit "URI malformed")
       (TranslationAPI.GoogleJson (JString (lit "hola")))
       (lit "hello") English French)
  = TranslationAPI.Returns (JString (lit "h")).
Proof. split; vm_compute; reflexivity. Qed.

(** A falsy value on the way, here the empty string, gives the notice. *)
Example fallback_falsy_segment :
  TranslationAPI.outcome
    (TranslationAPI.fallbackTranslation (lit "URI malformed")
       (TranslationAPI.GoogleJson (JArray [JArray [JArray [JString []]]]))
       (lit "hello") English French)
  = TranslationAPI.Returns
      (JString (lit "[Translation from English to French unavailable]")).
Proof. vm_compute. reflexivity. Qed.

(** A rejected request whose message holds "fetch". *)
Lemma translate_messages_witness :
  (TranslationAPI.unavailable = TranslationAPI.failed \/
   TranslationAPI.unavailable = TranslationAPI.unavailable) /\
  exists before,
    TranslationAPI.events
      (TranslationAPI.translate toLowerCase (lit "URI malformed")
         (TranslationAPI.FetchFails (lit "Failed to fetch"))
         TranslationAPI.GoogleFails (lit "hello") English French)
    = (before ++ [TranslationAPI.ConsoleError])%list.
Proof.
  apply (@translate_messages toLowerCase (lit "URI malformed")
           (TranslationAPI.FetchFails (lit "Failed to fetch"))
           TranslationAPI.GoogleFails (lit "hello") English French).
  vm_compute. reflexivity.
Defined.

Lemma translate_not_ok_witness :
  TranslationAPI.translate toLowerCase (lit "URI malformed")
    (TranslationAPI.Response false 429 (TranslationAPI.NotJson []))
    TranslationAPI.GoogleFails (lit "hello") English French
  = ([TranslationAPI.MyMemory (lit "hello") "en" "fr"; TranslationAPI.ConsoleError],
     TranslationAPI.Throws TranslationAPI.failed).
Proof.
  apply translate_not_ok.
  - cbn. discriminate.
  - reflexivity.
Defined.

(** MyMemory answers ["Hello "] to ["hello"]: the fallback decides. *)
Lemma translate_ok_witness :
  TranslationAPI.translate toLowerCase (lit "URI malformed")
    (TranslationAPI.Response true 200
       (TranslationAPI.Data true (Some (lit "Hello "))))
    (TranslationAPI.GoogleJson
       (JArray [JArray [JArray [JString (lit "bonjour"); JString (lit "hello")]]]))
    (lit "hello") English French
  = ([TranslationAPI.MyMemory (lit "hello") "en" "fr";
      TranslationAPI.Google "en" "fr" (lit "hello")],
     TranslationAPI.Returns (JString (lit "bonjour"))).
Proof.
  rewrite (@translate_ok toLowerCase (lit "URI malformed") 200 (lit "Hello ")
             (TranslationAPI.GoogleJson
                (JArray [JArray [JArray [JString (lit "bonjour");
                                         JString (lit "hello")]]]))
             (lit "hello") English French).
  - vm_compute. reflexivity.
  - cbn. discriminate.
  - reflexivity.
Defined.

(* ================================================================== *)
(** ** Further properties of the service *)

Section ServiceFacts.

Local Open Scope list_scope.

Variable lower : jsstring -> jsstring.
Variable catalog : list Language.

Lemma findCode_some (c : string) (l : Language) :
  findCode catalog c = Some l -> In l catalog /\ code l = c.
Proof.
  intros H. apply find_some in H. destruct H as [Hin Hc].
  apply String.eqb_eq in Hc. split; assumption.
Qed.

Lemma has_ideograph_japanese (text : jsstring) :
  has [range "一" "龯"] text = true ->
  has (ones "ひらがなカタカナ" ++ [range "一" "龯"]) text = true.
Proof.
  unfold has. rewrite !test_Cls. intros H.
  apply existsb_exists in H. destruct H as (c & Hin & Hc).
  apply existsb_exists. exists c. split; [exact Hin|].
  apply japanese_class_ideograph.
  unfold inClass in Hc. cbn [existsb] in Hc. rewrite orb_false_r in Hc. exact Hc.
Qed.

Lemma heuristic_result_codes (text : jsstring) (l : Language) :
  heuristicLanguageDetection lower catalog text = Some l ->
  In l catalog /\ In (code l) reachableCodes /\
  code l <> "zh" /\ code l <> "auto".
Proof.
  intros H.
  assert (K : In l catalog /\ In (code l) reachableCodes).
  { revert H. unfold heuristicLanguageDetection. cbv zeta.
    destruct (isTransliteratedHindi lower text);
      [intros H; apply findCode_some in H; destruct H as [? ->]; cbn; tauto|].
    destruct (_ || _);
      [intros H; apply findCode_some in H; destruct H as [? ->]; cbn; tauto|].
    destruct (_ || _);
      [intros H; apply findCode_some in H; destruct H as [? ->]; cbn; tauto|].
    destruct (_ || _);
      [intros H; apply findCode_some in H; destruct H as [? ->]; cbn; tauto|].
    destruct (has (ones _ ++ _) text) eqn:Ej;
      [intros H; apply findCode_some in H; destruct H as [? ->]; cbn; tauto|].
    destruct (has [range "가" "힣"] text);
      [intros H; apply findCode_some in H; destruct H as [? ->]; cbn; tauto|].
    destruct (has [range "一" "龯"] text) eqn:Ez.
    { apply has_ideograph_japanese in Ez. congruence. }
    repeat (destruct (_ || _);
      [intros H; apply findCode_some in H; destruct H as [? ->]; cbn; tauto|]).
    intros H; apply findCode_some in H; destruct H as [? ->]; cbn; tauto. }
  destruct K as [K1 K2]. repeat split; try assumption.
  - intros E. rewrite E in K2. cbn in K2. intuition discriminate.
  - intros E. rewrite E in K2. cbn in K2. intuition discriminate.
Qed.

(** X20.  Whatever the text and the catalog, a language returned by
    [heuristicLanguageDetection] is a catalog entry with one of eleven
    codes: never ['zh'], whose lookup no text reaches, and never
    ['auto']. *)
Theorem heuristic_codes (text : jsstring) (l : Language) :
  heuristicLanguageDetection lower catalog text = Some l ->
  In l catalog /\ In (code l) reachableCodes /\
  code l <> "zh" /\ code l <> "auto".
Proof. apply heuristic_result_codes. Qed.

(** X21.  What [detectLanguage] does to the outside world is one of four
    things: nothing; one request; one request and one logged error; one
    logged error.  A request is sent exactly when the heuristic result is
    an entry with code ['en'], the English word check fails and the text
    can be encoded. *)
Theorem detectLanguage_requests (remote : Remote) (text : jsstring) :
  let ev := events (detectLanguage lower catalog remote text) in
  (ev = [] \/ ev = [Fetch text] \/ ev = [Fetch text; ConsoleError] \/
   ev = [ConsoleError]) /\
  existsb isFetch ev =
    match heuristicLanguageDetection lower catalog text with
    | Some l => (code l =? "en") && negb (isLikelyEnglish text) && wellFormed text
    | None => false
    end.
Proof.
  unfold detectLanguage, TranslationService.encodeURIComponent,
    TranslationService.fetch.
  destruct (heuristicLanguageDetection lower catalog text) as [l|];
    cbn; [|split; [tauto|reflexivity]].
  destruct (code l =? "en"); cbn; [|split; [tauto|reflexivity]].
  destruct (isLikelyEnglish text); cbn; [split; [tauto|reflexivity]|].
  destruct (wellFormed text); cbn; [|split; [tauto|reflexivity]].
  destruct remote as [[[] [[|[] []]|]]|]; cbn; (split; [tauto|reflexivity]).
Qed.

(** X22.  Substring matching of the vocabulary: as soon as the lower-cased
    text holds one of the listed words anywhere -- inside another word
    too -- and the catalog has a Hindi entry, [detectLanguage] returns that
    entry without sending a request. *)
Theorem vocabulary_hit (remote : Remote) (text : jsstring) (word : string)
        (l : Language) :
  In word hindiWords ->
  includes (lower text) (lit word) = true ->
  findCode catalog "hi" = Some l ->
  isTransliteratedHindi lower text = true /\
  detectLanguage lower catalog remote text = ([], Normal (Some l)).
Proof.
  intros Hin Hinc Hl.
  assert (T : isTransliteratedHindi lower text = true).
  { unfold isTransliteratedHindi. cbv zeta.
    assert (E : existsb (fun word => includes (lower text) (lit word)) hindiWords
                = true) by (apply existsb_exists; eauto).
    rewrite E. reflexivity. }
  split; [exact T|].
  apply detectLanguage_trusted.
  - rewrite (@heuristic_transliterated lower catalog text T). exact Hl.
  - apply findCode_some in Hl. destruct Hl as [_ ->]. reflexivity.
Qed.

(** X23.  Shared diacritics follow the order of the tests: a text whose
    lower-cased form holds one of [¡¿ñáéíóúü] is never answered French,
    German, Italian, Portuguese or English -- the Spanish test, or an
    earlier tier, answers first. *)
Theorem spanish_marks_first (text : jsstring) (l : Language) :
  existsb (inClass (ones "¡¿ñáéíóúü")) (lower text) = true ->
  heuristicLanguageDetection lower catalog text = Some l ->
  In (code l) ["hi"; "ar"; "ru"; "ja"; "ko"; "es"].
Proof.
  intros Hm. rewrite <- test_Cls in Hm. fold (has (ones "¡¿ñáéíóúü") (lower text)) in Hm.
  unfold heuristicLanguageDetection. cbv zeta.
  destruct (isTransliteratedHindi lower text);
    [intros H; apply findCode_some in H; destruct H as [? ->]; cbn; tauto|].
  destruct (_ || _);
    [intros H; apply findCode_some in H; destruct H as [? ->]; cbn; tauto|].
  destruct (_ || _);
    [intros H; apply findCode_some in H; destruct H as [? ->]; cbn; tauto|].
  destruct (_ || _);
    [intros H; apply findCode_some in H; destruct H as [? ->]; cbn; tauto|].
  destruct (has (ones _ ++ _) text) eqn:Ej;
    [intros H; apply findCode_some in H; destruct H as [? ->]; cbn; tauto|].
  destruct (has [range "가" "힣"] text);
    [intros H; apply findCode_some in H; destruct H as [? ->]; cbn; tauto|].
  destruct (has [range "一" "龯"] text) eqn:Ez.
  { apply has_ideograph_japanese in Ez. congruence. }
  rewrite Hm. cbn [orb].
  intros H; apply findCode_some in H; destruct H as [? ->]; cbn; tauto.
Qed.

End ServiceFacts.

Section WholeWords.

Local Open Scope list_scope.

Lemma Matches_Seq_inv (r1 r2 : re) prev m rest :
  Matches (Seq r1 r2) prev m rest ->
  exists m1 m2, m = m1 ++ m2 /\ Matches r1 prev m1 (m2 ++ rest) /\
                Matches r2 (lastOr prev m1) m2 rest.
Proof. intros H. inversion H; subst. eauto. Qed.

Lemma MSeq_at (r1 r2 : re) prev m m1 m2 rest :
  m = m1 ++ m2 ->
  Matches r1 prev m1 (m2 ++ rest) ->
  Matches r2 (lastOr prev m1) m2 rest ->
  Matches (Seq r1 r2) prev m rest.
Proof. intros ->. apply MSeq. Qed.

Lemma Matches_WordB_inv prev m rest :
  Matches WordB prev m rest ->
  m = [] /\ xorb (isWordOpt prev) (isWordOpt (head rest)) = true.
Proof. intros H. inversion H; subst. split; [reflexivity|assumption]. Qed.

Lemma Matches_Eps_inv prev m rest : Matches Eps prev m rest -> m = [].
Proof. intros H. inversion H; subst. reflexivity. Qed.

Lemma Matches_oneOf (ic : bool) (ws : list string) prev m rest :
  Matches (oneOf ic ws) prev m rest <->
  exists w, In w ws /\ Forall2 (fun a b => sameChar ic a b = true) (lit w) m.
Proof.
  unfold oneOf, alts. induction ws as [|w ws IH]; cbn [map fold_right In].
  - split; [intros H; inversion H|intros (w & [] & _)].
  - split.
    + intros H. inversion H; subst.
      * match goal with H' : Matches (Lit _ _) _ _ _ |- _ => inversion H'; subst end.
        exists w. split; [left; reflexivity|assumption].
      * match goal with H' : Matches _ _ _ _ |- _ => apply IH in H' as (w' & Hin & HF) end.
        exists w'. split; [right; exact Hin|exact HF].
    + intros (w' & [<-|Hin] & HF).
      * apply MAltL. constructor. exact HF.
      * apply MAltR. apply IH. eauto.
Qed.

Lemma letter_matches_word_char (a b : codeunit) :
  isLowerLetter a = true -> upperAscii a = upperAscii b -> isWordChar b = true.
Proof.
  unfold isLowerLetter, upperAscii, isWordChar. intros Ha.
  rewrite Ha. apply andb_true_iff in Ha. destruct Ha as [H1 H2].
  apply Z.leb_le in H1, H2.
  destruct ((0x61 <=? b) && (b <=? 0x7A))%Z eqn:Eb; [reflexivity|].
  intros E. cbn [orb].
  assert (Hb : (0x41 <= b <= 0x5A)%Z) by lia.
  destruct Hb as [Hb1 Hb2]. apply Z.leb_le in Hb1, Hb2. rewrite Hb1, Hb2.
  reflexivity.
Qed.

Lemma word_run (w m : jsstring) :
  forallb isLowerLetter w = true ->
  Forall2 (fun a b => upperAscii a = upperAscii b) w m ->
  Forall (fun b => isWordChar b = true) m.
Proof.
  intros Hw HF. induction HF as [|a b w m Hab HF IH]; [constructor|].
  cbn in Hw. apply andb_true_iff in Hw. destruct Hw as [Ha Hw].
  constructor; [exact (letter_matches_word_char _ _ Ha Hab)|apply IH, Hw].
Qed.

Lemma lastOr_word (m : jsstring) :
  Forall (fun b => isWordChar b = true) m -> m <> [] ->
  forall prev, isWordOpt (lastOr prev m) = true.
Proof.
  induction 1 as [|b m Hb Hm IH]; [congruence|]. intros _ prev.
  destruct m as [|b' m]; [exact Hb|].
  change (lastOr prev (b :: b' :: m)) with (lastOr (Some b) (b' :: m)).
  apply IH. discriminate.
Qed.

Lemma englishWords_list :
  englishWords = seqs [WordB; oneOf true englishWordList; WordB].
Proof. reflexivity. Qed.

Lemma englishWordList_letters :
  forallb (fun w => forallb isLowerLetter (lit w) && negb (Nat.eqb (List.length (lit w)) 0))
          englishWordList = true.
Proof. vm_compute. reflexivity. Qed.

Lemma sameChar_ignoreCase (w m : jsstring) :
  Forall2 (fun a b => sameChar true a b = true) w m <->
  Forall2 (fun a b => upperAscii a = upperAscii b) w m.
Proof.
  split; intros H; induction H; constructor; try assumption;
    unfold sameChar in *; apply Z.eqb_eq; assumption.
Qed.

(** X24.  [isLikelyEnglish] holds exactly when one of the listed words
    occurs in the text, in any mix of upper and lower case, with no letter,
    digit or underscore right before it or right after it. *)
Theorem isLikelyEnglish_whole_word (text : jsstring) :
  isLikelyEnglish text = true <-> occursAsWord englishWordList text.
Proof.
  unfold isLikelyEnglish. rewrite test_spec, englishWords_list. cbn [seqs fold_right].
  pose proof englishWordList_letters as L. rewrite forallb_forall in L.
  split.
  - intros (pre & m & rest & -> & HM).
    apply Matches_Seq_inv in HM. destruct HM as (m1 & m2 & -> & HB & HM).
    apply Matches_WordB_inv in HB. destruct HB as [-> HB]. cbn [app lastOr fold_left] in *.
    apply Matches_Seq_inv in HM. destruct HM as (m3 & m4 & -> & HW & HM).
    apply Matches_Seq_inv in HM. destruct HM as (m5 & m6 & -> & HB2 & HE).
    apply Matches_WordB_inv in HB2. destruct HB2 as [-> HB2].
    apply Matches_Eps_inv in HE. subst m6. cbn [app] in *.
    rewrite app_nil_r in *.
    apply Matches_oneOf in HW. destruct HW as (w & Hin & HF).
    apply sameChar_ignoreCase in HF.
    specialize (L w Hin). apply andb_true_iff in L. destruct L as [L1 L2].
    pose proof (@word_run _ _ L1 HF) as Hrun.
    assert (Hne : m3 <> []).
    { intros ->. inversion HF as [E|]; subst. rewrite <- E in L2. discriminate. }
    exists pre, m3, rest, w. repeat split; try assumption.
    + destruct m3 as [|b m3]; [congruence|].
      inversion Hrun as [|? ? Hb1 _]; subst.
      cbn [app head isWordOpt] in HB. rewrite Hb1 in HB.
      destruct (isWordOpt (lastOr None pre)); [discriminate|reflexivity].
    + rewrite (@lastOr_word _ Hrun Hne) in HB2.
      destruct (isWordOpt (head rest)); [discriminate|reflexivity].
  - intros (pre & m & post & w & -> & Hin & HF & Hb & Ha).
    specialize (L w Hin). apply andb_true_iff in L. destruct L as [L1 L2].
    pose proof (@word_run _ _ L1 HF) as Hrun.
    assert (Hne : m <> []).
    { intros ->. inversion HF as [E|]; subst. rewrite <- E in L2. discriminate. }
    exists pre, m, post. split; [reflexivity|].
    apply (@MSeq_at WordB _ (lastOr None pre) m [] m post eq_refl).
    + apply MWordB. rewrite Hb. cbn [app].
      destruct m as [|b m]; [congruence|].
      inversion Hrun as [|? ? Hb1 _]; subst.
      cbn [app head isWordOpt]. rewrite Hb1. reflexivity.
    + cbn [lastOr fold_left].
      apply (@MSeq_at _ _ (lastOr None pre) m m [] post);
        [symmetry; apply app_nil_r| |].
      * apply Matches_oneOf. exists w. split; [exact Hin|].
        apply sameChar_ignoreCase. exact HF.
      * apply (@MSeq_at WordB Eps _ [] [] [] post eq_refl); [|constructor].
        apply MWordB. cbn [app]. rewrite (@lastOr_word _ Hrun Hne), Ha. reflexivity.
Qed.

End WholeWords.

Lemma heuristic_codes_witness :
  In Japanese languages /\ In (code Japanese) reachableCodes /\
  code Japanese <> "zh" /\ code Japanese <> "auto".
Proof.
  apply (@heuristic_codes toLowerCase languages (lit "你好世界") Japanese).
  vm_compute. reflexivity.
Defined.

(** "the weather" holds the listed word "the". *)
Lemma vocabulary_hit_witness :
  isTransliteratedHindi toLowerCase (lit "the weather") = true /\
  detectLanguage toLowerCase languages None (lit "the weather")
  = ([], Normal (Some Hindi)).
Proof.
  apply (@vocabulary_hit toLowerCase languages None (lit "the weather") "the" Hindi).
  - unfold hindiWords. cbn [In]. do 18 right. left. reflexivity.
  - vm_compute. reflexivity.
  - reflexivity.
Defined.

(** German "für" carries [ü] and is answered Spanish. *)
Lemma spanish_marks_first_witness :
  In (code (mkLanguage "es" "Spanish")) ["hi"; "ar"; "ru"; "ja"; "ko"; "es"].
Proof.
  apply (@spanish_marks_first toLowerCase languages (lit "für")
           (mkLanguage "es" "Spanish")).
  - vm_compute. reflexivity.
  - vm_compute. reflexivity.
Defined.

(* ================================================================== *)
(** ** The translation hook *)

Section HookFacts.

Import Hook.
Local Open Scope list_scope.

Variable Number : Type.
Variable lower : jsstring -> jsstring.
Variable catalog : list Language.
Variable remote : Remote.
Variable myMemory : TranslationAPI.MyMemoryReply.
Variable google : TranslationAPI.GoogleReply.
Variables uriMessage typeErrorMessage : jsstring.
Variable nowId : string.
Variables timestamp confidence : Number.

Local Abbreviation hookTranslate :=
  (Hook.translate lower catalog remote myMemory google uriMessage
     typeErrorMessage nowId timestamp confidence).
Local Abbreviation hookAttempt :=
  (Hook.attempt lower catalog remote myMemory google uriMessage
     typeErrorMessage).

Lemma detectLanguage_pair (text : jsstring) :
  detectLanguage lower catalog remote text
  = (events (detectLanguage lower catalog remote text),
     Normal (heuristicLanguageDetection lower catalog text)).
Proof.
  rewrite <- detectLanguage_completion with (remote := remote).
  destruct (detectLanguage lower catalog remote text). reflexivity.
Qed.

(** What the [try] block can arrive at. *)
Lemma attempt_cases (text : jsstring) (s t : Language) :
  match snd (hookAttempt text s t) with
  | TranslationAPI.Returns (actual, _) => code actual <> "auto"
  | TranslationAPI.Throws message =>
    message = TranslationAPI.failed \/ message = TranslationAPI.unavailable \/
    message = typeErrorMessage
  end.
Proof.
  assert (S : forall actual,
    code actual <> "auto" ->
    match snd (let '(ev, o) :=
                 TranslationAPI.translate lower uriMessage myMemory google
                   text actual t in
               (map Translation ev,
                match o with
                | TranslationAPI.Returns translatedText =>
                  TranslationAPI.Returns (actual, translatedText)
                | TranslationAPI.Throws message => TranslationAPI.Throws message
                end)) with
    | TranslationAPI.Returns (actual, _) => code actual <> "auto"
    | TranslationAPI.Throws message =>
      message = TranslationAPI.failed \/ message = TranslationAPI.unavailable \/
      message = typeErrorMessage
    end).
  { intros actual Ha.
    destruct (TranslationAPI.translate lower uriMessage myMemory google
                text actual t) as [ev [r|m]] eqn:E; cbn [snd]; [exact Ha|].
    pose proof (@translate_throws lower uriMessage myMemory google text actual t m)
      as K.
    rewrite E in K. destruct (K eq_refl) as [[->| ->] _];
      [left|right; left]; reflexivity. }
  unfold Hook.attempt.
  destruct (code s =? "auto") eqn:Es.
  - rewrite detectLanguage_pair.
    destruct (heuristicLanguageDetection lower catalog text) as [l|] eqn:H;
      [|cbn [snd]; right; right; reflexivity].
    assert (Hl : code l <> "auto")
      by (apply (@heuristic_result_codes lower catalog text l H)).
    destruct (code l =? code t); [exact Hl|].
    specialize (S l Hl). revert S.
    destruct (TranslationAPI.translate lower uriMessage myMemory google text l t)
      as [ev o]. cbn [snd]. intros S. exact S.
  - apply String.eqb_neq in Es.
    destruct (code s =? code t); [exact Es|]. apply S, Es.
Qed.

(** X25.  On a text that is not blank the hook ends with the busy flag off
    and either returns a translation of that text into the target
    language, never marked favourite, whose source language is not [auto],
    with the error cleared; or returns [null] with the error set to one of
    three messages: the two of the service's [translate], or that of the
    TypeError raised when detection gave [undefined]. *)
Theorem hook_outcomes (text : jsstring) (s t : Language) (st : State) :
  trim text <> [] ->
  let r := hookTranslate text s t st in
  isTranslating (snd (fst r)) = false /\
  match snd r with
  | Some translation =>
    error (snd (fst r)) = None /\
    History.id translation = nowId /\
    History.originalText translation = text /\
    History.targetLanguage translation = t /\
    History.isFavorite translation = false /\
    code (History.sourceLanguage translation) <> "auto"
  | None =>
    exists message,
      error (snd (fst r)) = Some message /\
      (message = TranslationAPI.failed \/ message = TranslationAPI.unavailable \/
       message = typeErrorMessage)
  end.
Proof.
  intros Hne. unfold Hook.translate.
  destruct (trim text) as [|c0 r0]; [congruence|].
  pose proof (attempt_cases text s t) as K.
  destruct (hookAttempt text s t) as [ev [[actual translated]|m]];
    cbn [snd fst] in *.
  - repeat split. exact K.
  - split; [reflexivity|]. exists m. split; [reflexivity|exact K].
Qed.

(** X26.  Detection that finds no catalog entry: with [auto] as the source
    and a heuristic result of [undefined], the hook returns [null], shows
    the TypeError's message, has logged one error and has sent no
    request. *)
Theorem hook_undefined_detection (text : jsstring) (s t : Language) (st : State) :
  trim text <> [] ->
  code s = "auto" ->
  heuristicLanguageDetection lower catalog text = None ->
  hookTranslate text s t st
  = ([Detection ConsoleError], mkState false (Some typeErrorMessage), None).
Proof.
  intros Hne Hs Hh. unfold Hook.translate, Hook.attempt.
  destruct (trim text) as [|c0 r0]; [congruence|].
  rewrite Hs. cbn [String.eqb Ascii.eqb Bool.eqb andb].
  unfold detectLanguage. rewrite Hh. reflexivity.
Qed.

(** X27.  Detection that finds the target language: with [auto] as the
    source, when the heuristic result has the target's code, other than
    ['en'], the hook returns the text untranslated with the detected
    language as its source, and nothing at all is sent or logged. *)
Theorem hook_detected_target (text : jsstring) (s t l : Language) (st : State) :
  trim text <> [] ->
  code s = "auto" ->
  heuristicLanguageDetection lower catalog text = Some l ->
  code l = code t ->
  code l <> "en" ->
  hookTranslate text s t st
  = ([], mkState false None,
     Some (History.mkTranslation nowId text (JString text) l t timestamp false
             (Some confidence))).
Proof.
  intros Hne Hs Hh Ht Hen. unfold Hook.translate, Hook.attempt.
  destruct (trim text) as [|c0 r0]; [congruence|].
  rewrite Hs. cbn [String.eqb Ascii.eqb Bool.eqb andb].
  rewrite (@detectLanguage_trusted lower catalog remote text l Hh).
  - rewrite Ht, String.eqb_refl. reflexivity.
  - apply String.eqb_neq in Hen. rewrite Hen. reflexivity.
Qed.

End HookFacts.

Lemma hook_outcomes_witness :
  Hook.isTranslating
    (snd (fst (Hook.translate toLowerCase languages None
                 (TranslationAPI.FetchFails (lit "Failed to fetch"))
                 TranslationAPI.GoogleFails (lit "URI malformed")
                 (lit "Cannot read properties of undefined") "1700000000000"
                 0%Z 1%Z (lit "bonjour") Auto English
                 (Hook.mkState false None)))) = false.
Proof.
  assert (H : trim (lit "bonjour") <> []) by (vm_compute; discriminate).
  exact (proj1 (@hook_outcomes Z toLowerCase languages None
           (TranslationAPI.FetchFails (lit "Failed to fetch"))
           TranslationAPI.GoogleFails (lit "URI malformed")
           (lit "Cannot read properties of undefined") "1700000000000"
           0%Z 1%Z (lit "bonjour") Auto English (Hook.mkState false None) H)).
Defined.

(** Arabic text on a list that has no entry for it. *)
Lemma hook_undefined_detection_witness :
  Hook.translate toLowerCase languages None
    (TranslationAPI.FetchFails (lit "Failed to fetch"))
    TranslationAPI.GoogleFails (lit "URI malformed")
    (lit "Cannot read properties of undefined") "1700000000000"
    0%Z 1%Z (lit "مرحبا") Auto English (Hook.mkState false None)
  = ([Hook.Detection ConsoleError],
     Hook.mkState false (Some (lit "Cannot read properties of undefined")),
     None).
Proof.
  apply hook_undefined_detection.
  - vm_compute. discriminate.
  - reflexivity.
  - vm_compute. reflexivity.
Defined.

(** Romanized Hindi, to be put into Hindi. *)
Lemma hook_detected_target_witness :
  Hook.translate toLowerCase languages None
    (TranslationAPI.FetchFails (lit "Failed to fetch"))
    TranslationAPI.GoogleFails (lit "URI malformed")
    (lit "Cannot read properties of undefined") "1700000000000"
    0%Z 1%Z (lit "namaste") Auto Hindi (Hook.mkState false None)
  = ([], Hook.mkState false None,
     Some (History.mkTranslation "1700000000000" (lit "namaste")
             (JString (lit "namaste"))
             Hindi Hindi 0%Z false (Some 1%Z))).
Proof.
  apply hook_detected_target.
  - vm_compute. discriminate.
  - reflexivity.
  - vm_compute. reflexivity.
  - reflexivity.
  - cbn. discriminate.
Defined.

(* ================================================================== *)
(** ** The language list *)

Section ListFacts.

Import Lists.
Local Open Scope list_scope.

Variable lower : jsstring -> jsstring.
Variable catalog : list Language.

Lemma includes_empty (s : jsstring) : includes s [] = true.
Proof. destruct s; reflexivity. Qed.

Lemma filter_true {A} (f : A -> bool) (l : list A) :
  (forall x, f x = true) -> filter f l = l.
Proof.
  intros H. induction l as [|a l IH]; cbn; [reflexivity|].
  rewrite H, IH. reflexivity.
Qed.

(** X28.  The language list: with [excludeAuto] no search term brings up
    the [auto] entry; every entry shown is a catalog entry; and the empty
    search term shows every catalog entry ([auto] apart when excluded), in
    catalog order. *)
Theorem filteredLanguages_offer (excludeAuto : bool) :
  lower [] = [] ->
  (forall searchTerm lang,
      In lang (filteredLanguages lower catalog excludeAuto searchTerm) ->
      In lang catalog /\ (excludeAuto = true -> code lang <> "auto")) /\
  filteredLanguages lower catalog excludeAuto []
  = if excludeAuto then filter (fun lang => negb (code lang =? "auto")) catalog
    else catalog.
Proof.
  intros H0. split.
  - intros term lang Hin. unfold filteredLanguages in Hin.
    apply filter_In in Hin. destruct Hin as [Hin _].
    apply filter_In in Hin. destruct Hin as [Hin Hc]. split; [exact Hin|].
    intros ->. apply negb_true_iff, String.eqb_neq in Hc. exact Hc.
  - unfold filteredLanguages. rewrite H0.
    rewrite filter_true by (intros x; rewrite includes_empty; reflexivity).
    destruct excludeAuto; [reflexivity|]. apply filter_true. reflexivity.
Qed.

End ListFacts.

Lemma filteredLanguages_offer_witness :
  Lists.filteredLanguages toLowerCase languages true []
  = filter (fun lang => negb (code lang =? "auto")) languages.
Proof.
  apply (@filteredLanguages_offer toLowerCase languages true). reflexivity.
Defined.
